(** * Randomness tests for BitBabbler output: a verified model

    A shallow embedding of [randomness_tests.py]: the bit view of a byte
    buffer and the five statistical tests (monobit, runs, byte chi-square,
    Shannon entropy, serial correlation), followed by the properties the
    specification states about them.

    Conventions of the embedding.
    - A Python [int] is a [Z]; a [bytes] object is a [list byte], read as
      integers in 0..255 when iterated or indexed.
    - A Python [float] is modelled by the real number it approximates
      ([R]), or by [Inf] for [float("inf")]: arithmetic is exact, so that
      neither rounding nor overflow is modelled. A statement on this
      model is a statement on the code where rounding cannot change it:
      integers, signs, results that are equal because they are computed
      from equal integers. The upper bound of the entropy is not such a
      statement; for it, [shannon_entropy_per_byte_b64] follows the same
      code in binary64 arithmetic.
    - Code that can raise runs in the error monad [result]: indexing,
      division, [%], [math.sqrt], [math.log2] and [**] return [Raise e] on
      the inputs on which Python raises.
    - [math.erf] and [math.erfc] come from the C library; they are the
      fields of the class [Libm], together with the bounds on their
      values that the tests rely on. *)

From Stdlib Require Import ZArith List Lia Reals Lra Psatz.
From Stdlib Require Import Strings.Byte.
From Stdlib Require Import Floats.SpecFloat.
From stdpp Require Import base list.
Import ListNotations.

Local Open Scope Z_scope.

(** ** Exceptions and the error monad *)

Inductive exn : Type :=
| ZeroDivisionError
| ValueError
| IndexError
| TypeError.

Inductive result (A : Type) : Type :=
| Ok (a : A)
| Raise (e : exn).

Arguments Ok {A} a.
Arguments Raise {A} e.

Definition bind {A B : Type} (m : result A) (k : A -> result B) : result B :=
  match m with
  | Ok a => k a
  | Raise e => Raise e
  end.

Notation "'do' x <- m ; k" := (bind m (fun x => k))
  (at level 10, x name, m at level 100, k at level 200).

(** [for x in l: a = f(a, x)], with a body that may raise. *)
Fixpoint foldM {A B : Type} (f : A -> B -> result A) (l : list B) (a : A)
  : result A :=
  match l with
  | [] => Ok a
  | x :: l' => do a' <- f a x; foldM f l' a'
  end.

(** ** Python floats *)

Inductive float : Type :=
| Fin (x : R)
| Inf.

Coercion Fin : R >-> float.

(** ** Python built-ins *)

Module Py.

Definition len {A : Type} (l : list A) : Z := Z.of_nat (length l).

(** [range(a, b)] and [range(b)]. *)
Definition range2 (a b : Z) : list Z :=
  map (fun k => a + Z.of_nat k) (seq 0 (Z.to_nat (b - a))).

Definition range (b : Z) : list Z := range2 0 b.

(** [sum(l)]: starts from 0 and adds from the left. *)
Definition sum (l : list Z) : Z := fold_left Z.add l 0.

(** [l[i]]: a negative index counts from the end; out of range raises. *)
Definition getitem {A : Type} (l : list A) (i : Z) : result A :=
  let j := if i <? 0 then i + len l else i in
  if j <? 0 then Raise IndexError
  else match l !! Z.to_nat j with
       | Some x => Ok x
       | None => Raise IndexError
       end.

(** [l[i] = v]. *)
Definition setitem {A : Type} (l : list A) (i : Z) (v : A)
  : result (list A) :=
  let j := if i <? 0 then i + len l else i in
  if j <? 0 then Raise IndexError
  else if j <? len l then Ok (<[Z.to_nat j := v]> l)
  else Raise IndexError.

(** [a % b] on ints: the result has the sign of [b]. *)
Definition mod_ (a b : Z) : result Z :=
  if b =? 0 then Raise ZeroDivisionError else Ok (a mod b).

(** [x / y] on floats. *)
Definition fdiv (x y : R) : result R :=
  if Req_dec_T y 0 then Raise ZeroDivisionError else Ok (x / y)%R.

(** [a / b] on ints: true division. *)
Definition truediv (a b : Z) : result R :=
  if b =? 0 then Raise ZeroDivisionError else Ok (IZR a / IZR b)%R.

(** [x ** y] on floats. A negative base with a fractional exponent
    gives a complex number, which the arithmetic that follows carries to
    [math.erf], where it is rejected with [TypeError]; the model raises
    it at the power. *)
Definition fpow (x y : R) : result R :=
  if Rlt_dec x 0 then Raise TypeError
  else if Req_dec_T x 0 then
    if Rlt_dec y 0 then Raise ZeroDivisionError
    else if Req_dec_T y 0 then Ok 1%R
    else Ok 0%R
  else Ok (Rpower x y).

(** A [bytes] object and the integers it yields. *)
Definition bytes : Type := list byte.

Definition int_of_byte (b : byte) : Z := Z.of_N (Byte.to_N b).

Definition ints (data : bytes) : list Z := map int_of_byte data.

End Py.

(** ** The [math] module *)

Class Libm : Type := {
  erf : R -> R;
  erfc : R -> R;
  erf_bounds : forall x : R, (-1 <= erf x <= 1)%R;
  erfc_bounds : forall x : R, (0 <= x)%R -> (0 <= erfc x <= 1)%R
}.

Module math.

Definition sqrt (x : R) : result R :=
  if Rlt_dec x 0 then Raise ValueError else Ok (R_sqrt.sqrt x).

Definition log2 (x : R) : result R :=
  if Rle_dec x 0 then Raise ValueError else Ok (ln x / ln 2)%R.

End math.

(** ** The bit view *)

(** [bits_from_bytes]: the generator, as the list of what it yields. *)
Definition bits_from_bytes (data : Py.bytes) : list Z :=
  flat_map
    (fun b => map (fun i => Z.land (Z.shiftr b (7 - i)) 1) (Py.range 8))
    (Py.ints data).

(** ** The five tests *)

Section Tests.

Context {libm : Libm}.

(** [monobit_test]: [(p_value, z, ones, zeros)]. *)
Definition monobit_test (data : Py.bytes)
  : result (float * float * Z * Z) :=
  let bs := bits_from_bytes data in
  let n := Py.len bs in
  if n =? 0 then Ok (Fin 0, Fin 0, 0, 0)
  else
    let ones := Py.sum bs in
    let zeros := n - ones in
    let s := Z.abs (ones - zeros) in
    do rn <- math.sqrt (IZR n);
    do z <- Py.fdiv (IZR s) rn;
    do r2 <- math.sqrt 2;
    do a <- Py.fdiv z r2;
    let p := erfc a in
    Ok (Fin p, Fin z, ones, zeros).

(** The loop of [runs_test] that counts the runs of [bs]. *)
Definition count_runs (bs : list Z) (n : Z) : result Z :=
  foldM
    (fun runs i =>
       do x <- Py.getitem bs i;
       do y <- Py.getitem bs (i - 1);
       Ok (if x =? y then runs else runs + 1))
    (Py.range2 1 n) 1.

(** [runs_test], from the list [bs] of bits on. *)
Definition runs_test_bits (bs : list Z) : result (float * Z * float * float) :=
  let n := Py.len bs in
  if n <? 2 then Ok (Fin 0, 0, Fin 0, Fin 0)
  else
    let ones := Py.sum bs in
    let zeros := n - ones in
    if (ones =? 0) || (zeros =? 0) then Ok (Fin 0, 1, Fin 0, Inf)
    else
      do runs <- count_runs bs n;
      do q <- Py.truediv (2 * ones * zeros) n;
      let expected := (1 + q)%R in
      do variance <-
        Py.truediv (2 * ones * zeros * (2 * ones * zeros - n))
                   (n ^ 2 * (n - 1));
      if Rle_dec variance 0 then Ok (Fin 0, runs, Fin expected, Inf)
      else
        do sv <- math.sqrt variance;
        do z <- Py.fdiv (IZR runs - expected) sv;
        do r2 <- math.sqrt 2;
        do a <- Py.fdiv (Rabs z) r2;
        let p := erfc a in
        Ok (Fin p, runs, Fin expected, Fin z).

(** [runs_test]: [(p_value, num_runs, expected_runs, z)]. *)
Definition runs_test (data : Py.bytes) : result (float * Z * float * float) :=
  runs_test_bits (bits_from_bytes data).

(** [counts = [0] * 256; for b in data: counts[b] += 1]. *)
Definition byte_counts (data : Py.bytes) : result (list Z) :=
  foldM
    (fun counts b =>
       do c <- Py.getitem counts b;
       Py.setitem counts b (c + 1))
    (Py.ints data) (replicate 256 0).

(** [byte_chi_square]: [(chi_square, p_approx)]. *)
Definition byte_chi_square (data : Py.bytes) : result (float * float) :=
  let n := Py.len data in
  if n =? 0 then Ok (Fin 0, Fin 0)
  else
    do counts <- byte_counts data;
    do expected <- Py.fdiv (IZR n) 256;
    do chi <-
      foldM
        (fun chi c =>
           let diff := (IZR c - expected)%R in
           do t <- Py.fdiv (diff * diff) expected;
           Ok (chi + t)%R)
        counts 0%R;
    let df := 255 in
    do cd <- Py.fdiv chi (IZR df);
    do third <- Py.fdiv 1 3;
    do c <- Py.fpow cd third;
    do m <- Py.truediv 2 (9 * df);
    let mu := (1 - m)%R in
    do v <- Py.truediv 2 (9 * df);
    do sigma <- math.sqrt v;
    do z <- Py.fdiv (c - mu) sigma;
    do r2 <- math.sqrt 2;
    do a <- Py.fdiv z r2;
    let p := (1 - 0.5 * (1 + erf a))%R in
    Ok (Fin chi, Fin p).

(** [shannon_entropy_per_byte]. *)
Definition shannon_entropy_per_byte (data : Py.bytes) : result float :=
  match data with
  | [] => Ok (Fin 0)
  | _ =>
    do counts <- byte_counts data;
    let n := Py.len data in
    do entropy <-
      foldM
        (fun entropy c =>
           if c =? 0 then Ok entropy
           else
             do p <- Py.truediv c n;
             do l <- math.log2 p;
             Ok (entropy - p * l)%R)
        counts 0%R;
    Ok (Fin entropy)
  end.

(** The products that the generator
    [data[i] * data[(i + 1) % n] for i in range(n)] yields. *)
Definition lag_products (xs : list Z) (n : Z) : result (list Z) :=
  foldM
    (fun acc i =>
       do x <- Py.getitem xs i;
       do j <- Py.mod_ (i + 1) n;
       do y <- Py.getitem xs j;
       Ok (acc ++ [x * y]))
    (Py.range n) [].

(** [serial_correlation]. *)
Definition serial_correlation (data : Py.bytes) : result float :=
  let xs := Py.ints data in
  let n := Py.len xs in
  if n <? 2 then Ok (Fin 0)
  else
    let s1 := Py.sum xs in
    let s2 := Py.sum (map (fun b => b * b) xs) in
    do prods <- lag_products xs n;
    let s12 := Py.sum prods in
    let numerator := n * s12 - s1 * s1 in
    let denominator := n * s2 - s1 * s1 in
    if denominator =? 0 then Ok (Fin 0)
    else
      do rho <- Py.truediv numerator denominator;
      Ok (Fin rho).

End Tests.

(** ** Text *)

(** A [str] is the list of its code points. The methods below are the
    ones [run_bb_and_read_hex] calls, with the behaviour of CPython 3.7
    and later. *)
Module Text.

Definition str : Type := list N.

(** An ASCII literal. *)
Definition lit (l : list byte) : str := map Byte.to_N l.

(** The line boundaries of [str.splitlines]: LF, VT, FF, CR, FS, GS, RS,
    NEL, LINE SEPARATOR and PARAGRAPH SEPARATOR; CR LF counts as one. *)
Definition is_linebreak (c : N) : bool :=
  (((10 <=? c) && (c <=? 13)) || ((28 <=? c) && (c <=? 30))
   || (c =? 133) || (c =? 8232) || (c =? 8233))%N.

(** [str.isspace] on one code point: what [str.strip()] removes. *)
Definition isspace (c : N) : bool :=
  (((9 <=? c) && (c <=? 13)) || ((28 <=? c) && (c <=? 32))
   || (c =? 133) || (c =? 160) || (c =? 5760)
   || ((8192 <=? c) && (c <=? 8202))
   || (c =? 8232) || (c =? 8233) || (c =? 8239) || (c =? 8287)
   || (c =? 12288))%N.

(** [s.splitlines()], [cur] being the line read so far: a line ends at
    each boundary, and a last line without boundary is kept unless it is
    empty. *)
Fixpoint splitlines_from (cur s : str) : list str :=
  match s with
  | [] => match cur with [] => [] | _ => [cur] end
  | c :: s' =>
    if is_linebreak c then
      match c, s' with
      | 13, 10 :: s'' => cur :: splitlines_from [] s''
      | _, _ => cur :: splitlines_from [] s'
      end
    else splitlines_from (cur ++ [c]) s'
  end%N.

Definition splitlines (s : str) : list str := splitlines_from [] s.

Fixpoint lstrip (s : str) : str :=
  match s with
  | [] => []
  | c :: s' => if isspace c then lstrip s' else s
  end.

Definition rstrip (s : str) : str := rev (lstrip (rev s)).

(** [s.strip()]. *)
Definition strip (s : str) : str := rstrip (lstrip s).

(** [s.startswith(p)]. *)
Fixpoint startswith (s p : str) : bool :=
  match p, s with
  | [], _ => true
  | _ :: _, [] => false
  | a :: p', c :: s' => (c =? a)%N && startswith s' p'
  end.

(** [s.replace(" ", "")]. *)
Definition remove_spaces (s : str) : str :=
  filter (fun c => c <> 32%N) s.

(** The ASCII whitespace that [bytes.fromhex] skips between bytes. *)
Definition is_ascii_space (c : N) : bool :=
  (((9 <=? c) && (c <=? 13)) || (c =? 32))%N.

(** The value of a hexadecimal digit. *)
Definition hex_value (c : N) : option N :=
  (if (48 <=? c) && (c <=? 57) then Some (c - 48)
   else if (65 <=? c) && (c <=? 70) then Some (c - 55)
   else if (97 <=? c) && (c <=? 102) then Some (c - 87)
   else None)%N.

Definition byte_of_nibbles (top bot : N) : byte :=
  match Byte.of_N (16 * top + bot) with
  | Some b => b
  | None => x00
  end.

(** [bytes.fromhex(s)]: two digits per byte, whitespace allowed between
    the bytes only; anything else raises [ValueError]. *)
Fixpoint fromhex (s : str) : result (list byte) :=
  match s with
  | [] => Ok []
  | c :: s' =>
    if is_ascii_space c then fromhex s'
    else
      match hex_value c, s' with
      | Some top, d :: s'' =>
        match hex_value d with
        | Some bot =>
          do rest <- fromhex s'';
          Ok (byte_of_nibbles top bot :: rest)
        | None => Raise ValueError
        end
      | _, _ => Raise ValueError
      end
  end.

End Text.

(** ** Reading the device *)

Module BB.

Import Text.

(** The class of an exception, as far as the callers tell them apart. *)
Inductive error_class : Type :=
| ClassValueError
| ClassRuntimeError
| ClassOther.

(** What the statement in the [try] block does, [subprocess.run([bb_path,
    "--bits", str(bits)], capture_output=True, text=True,
    timeout=timeout_s, check=True)]: it completes with the text of the
    standard output, or raises. [OtherException c] stands for every
    exception of class [c] other than the three that are named: a
    [UnicodeDecodeError] on output that cannot be decoded, the
    [ValueError] for a null character in the path and the one of
    [str(bits)] on an integer of too many digits are of class
    [ClassValueError], a [PermissionError] of class [ClassOther]. *)
Inductive run_outcome : Type :=
| Completed (stdout : str)
| TimeoutExpired
| FileNotFoundError
| CalledProcessError (returncode : Z) (stderr : str)
| OtherException (class : error_class).

(** The exceptions that leave [run_bb_and_read_hex]: its [ValueError],
    its five [RuntimeError]s, told apart by their message, and whatever
    else [subprocess.run] raised, which is not caught and leaves as it
    is, with its class. *)
Inductive error : Type :=
| BitsNotPositive
| TimedOut
| NotFound
| Failed (returncode : Z) (stderr : str)
| NoHexOutput
| InvalidHex (hex_str : str)
| Uncaught (class : error_class).


Inductive outcome : Type :=
| Return (data : Py.bytes)
| Throw (e : error).

(** The loop over the lines of the output: the text after [HEX:] on the
    first line that starts with it, once stripped. *)
Fixpoint find_hex_line (lines : list str) : option str :=
  match lines with
  | [] => None
  | line :: rest =>
    let line := strip line in
    if startswith line (lit ["H"; "E"; "X"; ":"]%byte)
    then Some (strip (drop 4 line))
    else find_hex_line rest
  end.

(** [data[:k]]. *)
Definition slice_to {A : Type} (l : list A) (k : Z) : list A :=
  if k <? 0 then take (Z.to_nat (Py.len l + k)) l else take (Z.to_nat k) l.

Section Device.

(** The statement in the [try] block, as a function of the arguments
    of the call. *)
Variable subprocess_run : forall (bb_path : str) (bits : Z) (timeout_s : R), run_outcome.

(** [run_bb_and_read_hex]. *)
Definition run_bb_and_read_hex (bits : Z) (bb_path : str) (timeout_s : R)
  : outcome :=
  if bits <=? 0 then Throw BitsNotPositive
  else
    match subprocess_run bb_path bits timeout_s with
    | TimeoutExpired => Throw TimedOut
    | FileNotFoundError => Throw NotFound
    | CalledProcessError rc stderr => Throw (Failed rc (strip stderr))
    | OtherException c => Throw (Uncaught c)
    | Completed stdout =>
      match find_hex_line (splitlines stdout) with
      | None | Some [] => Throw NoHexOutput
      | Some hex_line =>
        let hex_str := remove_spaces hex_line in
        match fromhex hex_str with
        | Raise _ => Throw (InvalidHex hex_str)
        | Ok data =>
          let expected_len := (bits + 7) / 8 in
          if Py.len data =? expected_len then Return data
          else if Py.len data <? expected_len then
            Return (replicate (Z.to_nat (expected_len - Py.len data)) x00
                    ++ data)
          else Return (slice_to data expected_len)
        end
      end
    end.

End Device.

End BB.

(** ** Binary64 arithmetic *)

(** The floats of Python are the binary64 numbers of IEEE 754, rounded to
    nearest, ties to even: [spec_float] at precision 53. *)
Module B64.

Definition prec : Z := 53.
Definition emax : Z := 1024.


(** An integer as it is, not rounded: the operand of a division. *)
Definition of_int (z : Z) : spec_float :=
  match z with
  | 0 => S754_zero false
  | Zpos p => S754_finite false p 0
  | Zneg p => S754_finite true p 0
  end.


Definition mul : spec_float -> spec_float -> spec_float := SFmul prec emax.
Definition div : spec_float -> spec_float -> spec_float := SFdiv prec emax.

(** [a / b] on ints: the quotient of the two integers, rounded once. *)
Definition truediv (a b : Z) : result spec_float :=
  if b =? 0 then Raise ZeroDivisionError else Ok (div (of_int a) (of_int b)).


End B64.

(** ** The Shannon entropy in binary64 *)

Section EntropyB64.

(** [log2] of the C library, on the positive floats. *)
Variable libm_log2 : spec_float -> spec_float.



End EntropyB64.

(** * Quantities used to state the properties *)

(** The eight bits that one byte contributes. *)
Definition byte_bits (v : Z) : list Z :=
  map (fun i => Z.land (Z.shiftr v (7 - i)) 1) (Py.range 8).

(** The number of places in [l] where a value differs from the one before
    it, [prev] being the value before the head. *)
Fixpoint flips (prev : Z) (l : list Z) : Z :=
  match l with
  | [] => 0
  | x :: l' => (if x =? prev then 0 else 1) + flips x l'
  end.

(** The number of maximal runs of equal values in [bs]. *)
Definition runs_of (bs : list Z) : Z :=
  match bs with
  | [] => 0
  | x :: l => 1 + flips x l
  end.

(** The buffer [0xFF, 0x00, 0xFF, 0x00]. *)
Definition alternating4 : Py.bytes := [xff; x00; xff; x00].

(** [S2]: the sum of the squares. *)
Definition sumsq (xs : list Z) : Z := Py.sum (map (fun b => b * b) xs).

(** [S12]: the circular lag-1 sum, each element times its successor, the
    successor of the last one being the first. *)
Definition lag1_sum (xs : list Z) : Z :=
  Py.sum
    (map (fun i => nth i xs 0 * nth ((i + 1) mod length xs) xs 0)
         (seq 0 (length xs))).

(** [n * S2 - S1 ^ 2], the denominator of the serial correlation. *)
Definition dispersion (xs : list Z) : Z :=
  Py.len xs * sumsq xs - Py.sum xs * Py.sum xs.

(** The sum of the squared distances from [x] to the elements of [l]. *)
Definition sqdist (x : Z) (l : list Z) : Z :=
  Py.sum (map (fun y => (x - y) * (x - y)) l).

(** The number of occurrences of [v] in [xs]. *)
Fixpoint occ (v : Z) (xs : list Z) : Z :=
  match xs with
  | [] => 0
  | x :: l => (if x =? v then 1 else 0) + occ v l
  end.

(** Every byte value 0..255 occurs exactly once in [data]. *)
Definition each_byte_once (data : Py.bytes) : bool :=
  forallb (fun v => occ v (Py.ints data) =? 1) (Py.range 256).

(** The sum of a list of reals. *)
Definition Rsum (l : list R) : R := fold_right Rplus 0%R l.

(** [- p * log2 p] for [p = c / n], and 0 for a count [c] of 0. *)
Definition entropy_term (n c : Z) : R :=
  if c =? 0 then 0%R
  else (- (IZR c / IZR n) * (ln (IZR c / IZR n) / ln 2))%R.

(** The buffer of the 256 byte values in increasing order. *)
Definition all_bytes : Py.bytes :=
  omap (fun k => Byte.of_N (N.of_nat k)) (seq 0 256).

(** The table of the 256 byte frequencies of [data]. *)
Definition tally (data : Py.bytes) : list Z :=
  map (fun v => occ v (Py.ints data)) (Py.range 256).

(** One term of the chi-square statistic. *)
Definition chi_term (expected : R) (c : Z) : R :=
  ((IZR c - expected) * (IZR c - expected) / expected)%R.

(** The chi-square statistic of the byte frequencies against the uniform
    distribution. *)
Definition chi_statistic (data : Py.bytes) : R :=
  Rsum (map (chi_term (IZR (Py.len data) / 256)) (tally data)).

(** The cube root of a real that is not negative. *)
Definition cube_root (x : R) : R :=
  if Req_dec_T x 0 then 0%R else Rpower x (1 / 3).

(** The Wilson-Hilferty transform of a chi-square value with 255 degrees
    of freedom. *)
Definition wilson_hilferty_z (chi : R) : R :=
  ((cube_root (chi / 255) - (1 - 2 / (9 * 255)))
   / R_sqrt.sqrt (2 / (9 * 255)))%R.

(** The standard normal distribution function, through [erf]. *)
Definition Phi {libm : Libm} (z : R) : R :=
  (0.5 * (1 + erf (z / R_sqrt.sqrt 2)))%R.

(** The upper-case hexadecimal digit of a value below 16. *)
Definition hex_digit (n : N) : N := (if n <? 10 then 48 + n else 55 + n)%N.

(** The two hexadecimal digits of a byte. *)
Definition hex2 (b : byte) : Text.str :=
  [hex_digit (Byte.to_N b / 16); hex_digit (Byte.to_N b mod 16)]%N.

(** Bytes in hexadecimal, each one after the given number of spaces. *)
Definition hex_text (items : list (nat * byte)) : Text.str :=
  flat_map (fun it => replicate (fst it) 32%N ++ hex2 (snd it)) items.

(** The text [HEX:]. *)
Definition hex_prefix : Text.str := Text.lit ["H"; "E"; "X"; ":"]%byte.

(** The value of a sequence of bits read from the most significant. *)
Definition bits_value (bs : list Z) : Z :=
  fold_left (fun acc x => 2 * acc + x) bs 0.

(** The byte with every bit flipped. *)
Definition complement (b : byte) : byte :=
  match Byte.of_N (255 - Byte.to_N b) with
  | Some c => c
  | None => x00
  end.

(** A device that prints the two bytes [DE AD] on its first line. *)
Definition dead_device : Text.str -> Z -> R -> BB.run_outcome :=
  fun _ _ _ =>
    BB.Completed (hex_prefix ++ hex_text [(1%nat, "222"%byte); (1%nat, "173"%byte)]
                  ++ [10%N]).








(** A model of [Libm]: an odd, increasing function with limits -1 and 1
    in the place of [erf], and its complement to 1 in the place of
    [erfc]. It shows that the laws of the class can be met, and is the
    instance at which the properties below are exercised. *)
Definition sigmoid (x : R) : R := (x / R_sqrt.sqrt (1 + x * x))%R.

(** * Properties *)

(** ** The built-ins *)

Module PyFacts.
Import Py.

Lemma len_nil {A : Type} : len (@nil A) = 0.
Proof. reflexivity. Qed.

Lemma len_cons {A : Type} (x : A) (l : list A) : len (x :: l) = len l + 1.
Proof. unfold len. simpl length. lia. Qed.

Lemma len_app {A : Type} (l1 l2 : list A) : len (l1 ++ l2) = len l1 + len l2.
Proof. unfold len. rewrite length_app. lia. Qed.

Lemma len_nonneg {A : Type} (l : list A) : 0 <= len l.
Proof. unfold len. lia. Qed.

Lemma range2_nil (a b : Z) : b <= a -> range2 a b = [].
Proof.
  intros H. unfold range2. replace (Z.to_nat (b - a)) with 0%nat by lia.
  reflexivity.
Qed.

Lemma range2_cons (a b : Z) : a < b -> range2 a b = a :: range2 (a + 1) b.
Proof.
  intros H. unfold range2.
  replace (Z.to_nat (b - a)) with (S (Z.to_nat (b - (a + 1)))) by lia.
  simpl seq. simpl map. f_equal; [lia|].
  rewrite <- seq_shift, map_map. apply map_ext. intros k. lia.
Qed.

Lemma fold_left_add (l : list Z) (a : Z) :
  fold_left Z.add l a = a + fold_left Z.add l 0.
Proof.
  revert a. induction l as [|x l IH]; intros a; simpl; [lia|].
  rewrite (IH (a + x)), (IH (0 + x)). lia.
Qed.

Lemma sum_nil : sum [] = 0.
Proof. reflexivity. Qed.

Lemma sum_cons (x : Z) (l : list Z) : sum (x :: l) = x + sum l.
Proof. unfold sum. simpl. apply fold_left_add. Qed.

Lemma sum_app (l1 l2 : list Z) : sum (l1 ++ l2) = sum l1 + sum l2.
Proof.
  induction l1 as [|x l1 IH]; simpl app; [rewrite sum_nil; lia|].
  rewrite !sum_cons, IH. lia.
Qed.

(** Indexing inside the list succeeds and reads the element. *)
Lemma getitem_lookup {A : Type} (l : list A) (i : nat) (x : A) :
  l !! i = Some x -> getitem l (Z.of_nat i) = Ok x.
Proof.
  intros H. unfold getitem.
  destruct (Z.ltb_spec (Z.of_nat i) 0) as [Hn|_]; [lia|].
  destruct (Z.ltb_spec (Z.of_nat i) 0) as [Hn|_]; [lia|].
  now rewrite Nat2Z.id, H.
Qed.

Lemma getitem_app_r {A : Type} (l1 l2 : list A) (x : A) :
  getitem (l1 ++ x :: l2) (len l1) = Ok x.
Proof.
  apply getitem_lookup. rewrite lookup_app_r by lia.
  now rewrite Nat.sub_diag.
Qed.

Lemma setitem_lookup {A : Type} (l : list A) (i : nat) (v : A) :
  (i < length l)%nat -> setitem l (Z.of_nat i) v = Ok (<[i := v]> l).
Proof.
  intros H. unfold setitem, len.
  destruct (Z.ltb_spec (Z.of_nat i) 0) as [Hn|_]; [lia|].
  destruct (Z.ltb_spec (Z.of_nat i) 0) as [Hn|_]; [lia|].
  destruct (Z.ltb_spec (Z.of_nat i) (Z.of_nat (length l))) as [_|Hn]; [|lia].
  now rewrite Nat2Z.id.
Qed.

Lemma int_of_byte_range (b : byte) : 0 <= int_of_byte b < 256.
Proof.
  unfold int_of_byte. pose proof (Byte.to_N_bounded b). lia.
Qed.

Lemma truediv_Ok (a b : Z) :
  b <> 0 -> truediv a b = Ok (IZR a / IZR b)%R.
Proof.
  intros H. unfold truediv.
  destruct (Z.eqb_spec b 0); [contradiction | reflexivity].
Qed.

Lemma fdiv_Ok (x y : R) : y <> 0%R -> fdiv x y = Ok (x / y)%R.
Proof.
  intros H. unfold fdiv.
  destruct (Req_dec_T y 0); [contradiction | reflexivity].
Qed.

Lemma sqrt_Ok (x : R) : (0 <= x)%R -> math.sqrt x = Ok (R_sqrt.sqrt x).
Proof.
  intros H. unfold math.sqrt. destruct (Rlt_dec x 0); [lra | reflexivity].
Qed.

Lemma log2_Ok (x : R) : (0 < x)%R -> math.log2 x = Ok (ln x / ln 2)%R.
Proof.
  intros H. unfold math.log2. destruct (Rle_dec x 0); [lra | reflexivity].
Qed.

Lemma sqrt2_neq_0 : R_sqrt.sqrt 2 <> 0%R.
Proof.
  assert (0 < R_sqrt.sqrt 2)%R by (apply sqrt_lt_R0; lra). lra.
Qed.

End PyFacts.

(** ** The bit view *)

Lemma bits_from_bytes_cons (b : byte) (data : Py.bytes) :
  bits_from_bytes (b :: data) = byte_bits (Py.int_of_byte b) ++ bits_from_bytes data.
Proof. reflexivity. Qed.

Lemma land_shiftr_1 (v k : Z) :
  0 <= k -> Z.land (Z.shiftr v k) 1 = Z.b2z (Z.testbit v k).
Proof.
  intros Hk. change 1 with (Z.ones 1). rewrite Z.land_ones by lia.
  change (2 ^ 1) with 2. rewrite <- Z.bit0_mod, Z.shiftr_spec by lia.
  now rewrite Z.add_0_l.
Qed.

Lemma length_byte_bits (v : Z) : length (byte_bits v) = 8%nat.
Proof. reflexivity. Qed.

Lemma byte_bits_lookup (v : Z) (j : nat) :
  (j < 8)%nat ->
  byte_bits v !! j = Some (Z.b2z (Z.testbit v (7 - Z.of_nat j))).
Proof.
  intros Hj. unfold byte_bits.
  do 8 (destruct j as [|j]; [simpl; f_equal; apply land_shiftr_1; lia|]).
  lia.
Qed.

Lemma byte_bits_01 (v : Z) : Forall (fun x => x = 0 \/ x = 1) (byte_bits v).
Proof.
  unfold byte_bits. apply Forall_forall. intros x Hx.
  apply list_elem_of_In, in_map_iff in Hx. destruct Hx as (i & <- & Hi).
  assert (0 <= 7 - i) by (simpl in Hi; lia).
  rewrite land_shiftr_1 by assumption.
  destruct (Z.testbit v (7 - i)); simpl; auto.
Qed.

Lemma length_bits_from_bytes (data : Py.bytes) :
  length (bits_from_bytes data) = (8 * length data)%nat.
Proof.
  induction data as [|b data IH]; [reflexivity|].
  rewrite bits_from_bytes_cons, length_app, length_byte_bits, IH.
  simpl length. lia.
Qed.

Lemma bits_from_bytes_01 (data : Py.bytes) :
  Forall (fun x => x = 0 \/ x = 1) (bits_from_bytes data).
Proof.
  induction data as [|b data IH]; [constructor|].
  rewrite bits_from_bytes_cons. apply Forall_app. split; [apply byte_bits_01 | exact IH].
Qed.

Lemma bits_from_bytes_lookup (data : Py.bytes) (i j : nat) (b : byte) :
  data !! i = Some b -> (j < 8)%nat ->
  bits_from_bytes data !! (8 * i + j)%nat
  = Some (Z.b2z (Z.testbit (Py.int_of_byte b) (7 - Z.of_nat j))).
Proof.
  revert i. induction data as [|b0 data IH]; intros i Hi Hj; [discriminate|].
  rewrite bits_from_bytes_cons. destruct i as [|i].
  - simpl in Hi. injection Hi as ->.
    rewrite lookup_app_l by (rewrite length_byte_bits; lia).
    replace (8 * 0 + j)%nat with j by lia. now apply byte_bits_lookup.
  - simpl in Hi. rewrite lookup_app_r by (rewrite length_byte_bits; lia).
    rewrite length_byte_bits.
    replace (8 * S i + j - 8)%nat with (8 * i + j)%nat by lia.
    now apply IH.
Qed.

(** C4. For a buffer of [n] bytes, [bits_from_bytes] yields exactly [8 * n]
    values, each 0 or 1; the value at position [8 * i + j] (with [j < 8])
    is bit [7 - j] of byte [i], so that every byte is read from its most
    significant bit down; the empty buffer yields the empty sequence. *)
Theorem bits_from_bytes_msb_first (data : Py.bytes) :
  Py.len (bits_from_bytes data) = 8 * Py.len data
  /\ Forall (fun x => x = 0 \/ x = 1) (bits_from_bytes data)
  /\ (forall (i j : nat) (b : byte),
        data !! i = Some b -> (j < 8)%nat ->
        bits_from_bytes data !! (8 * i + j)%nat
        = Some (Z.b2z (Z.testbit (Py.int_of_byte b) (7 - Z.of_nat j))))
  /\ bits_from_bytes [] = [].
Proof.
  split; [|split; [|split]].
  - unfold Py.len. rewrite length_bits_from_bytes. lia.
  - apply bits_from_bytes_01.
  - apply bits_from_bytes_lookup.
  - reflexivity.
Qed.

(** ** The runs test *)

Section RunsLoop.

Import Py PyFacts.

Let body (bs : list Z) : Z -> Z -> result Z :=
  fun runs i =>
    do x <- getitem bs i;
    do y <- getitem bs (i - 1);
    Ok (if x =? y then runs else runs + 1).

Lemma count_runs_from (pre : list Z) (y : Z) (l : list Z) (acc : Z) :
  foldM (body (pre ++ y :: l))
        (range2 (len pre + 1) (len (pre ++ y :: l))) acc
  = Ok (acc + flips y l).
Proof.
  revert pre y acc. induction l as [|x l IH]; intros pre y acc.
  - rewrite range2_nil by (rewrite len_app, len_cons, len_nil; lia).
    simpl. f_equal. lia.
  - rewrite range2_cons
      by (rewrite len_app, !len_cons; pose proof (len_nonneg l); lia).
    cbn [foldM]. unfold body at 1.
    assert (Hx : getitem (pre ++ y :: x :: l) (len pre + 1) = Ok x).
    { replace (len pre + 1) with (len (pre ++ [y]))
        by (rewrite len_app, len_cons, len_nil; lia).
      replace (pre ++ y :: x :: l) with ((pre ++ [y]) ++ x :: l)
        by (now rewrite <- app_assoc).
      apply getitem_app_r. }
    assert (Hy : getitem (pre ++ y :: x :: l) (len pre + 1 - 1) = Ok y).
    { replace (len pre + 1 - 1) with (len pre) by lia. apply getitem_app_r. }
    rewrite Hx, Hy. cbn [bind].
    specialize (IH (pre ++ [y]) x (if x =? y then acc else acc + 1)).
    replace ((pre ++ [y]) ++ x :: l) with (pre ++ y :: x :: l) in IH
      by (now rewrite <- app_assoc).
    replace (len (pre ++ [y]) + 1) with (len pre + 1 + 1) in IH
      by (rewrite len_app, len_cons, len_nil; lia).
    rewrite IH. f_equal. simpl flips. destruct (x =? y); lia.
Qed.

Lemma count_runs_Ok (bs : list Z) :
  bs <> [] -> count_runs bs (len bs) = Ok (runs_of bs).
Proof.
  destruct bs as [|y l]; [congruence|]. intros _.
  exact (count_runs_from [] y l 1).
Qed.

Lemma flips_bounds (prev : Z) (l : list Z) : 0 <= flips prev l <= len l.
Proof.
  revert prev. induction l as [|x l IH]; intros prev; simpl flips.
  - change (len []) with 0. lia.
  - rewrite len_cons. specialize (IH x). destruct (x =? prev); lia.
Qed.

Lemma runs_of_bounds (bs : list Z) : bs <> [] -> 1 <= runs_of bs <= len bs.
Proof.
  destruct bs as [|y l]; [congruence|]. intros _.
  simpl runs_of. rewrite len_cons. pose proof (flips_bounds y l). lia.
Qed.

End RunsLoop.

Section RunsTest.

Context {libm : Libm}.
Import Py PyFacts.

(** Fewer than two bits: the first early return. *)
Lemma runs_test_bits_short (bs : list Z) :
  len bs < 2 -> runs_test_bits bs = Ok (Fin 0, 0, Fin 0, Fin 0).
Proof.
  intros H. unfold runs_test_bits.
  destruct (Z.ltb_spec (len bs) 2); [reflexivity | lia].
Qed.

(** No one or no zero among the bits: the second early return. *)
Lemma runs_test_bits_constant (bs : list Z) :
  2 <= len bs -> sum bs = 0 \/ len bs - sum bs = 0 ->
  runs_test_bits bs = Ok (Fin 0, 1, Fin 0, Inf).
Proof.
  intros Hn Hc. unfold runs_test_bits.
  destruct (Z.ltb_spec (len bs) 2); [lia|].
  replace ((sum bs =? 0) || (len bs - sum bs =? 0))%bool with true;
    [reflexivity|].
  symmetry. apply orb_true_iff. rewrite !Z.eqb_eq. exact Hc.
Qed.

(** Both values occur: the runs are counted and the statistic computed. *)
Lemma runs_test_bits_mixed (bs : list Z) :
  2 <= len bs -> sum bs <> 0 -> len bs - sum bs <> 0 ->
  exists (p z : float),
    runs_test_bits bs
    = Ok (p, runs_of bs,
          Fin (1 + IZR (2 * sum bs * (len bs - sum bs)) / IZR (len bs)), z).
Proof.
  intros Hn H1 H0. unfold runs_test_bits.
  destruct (Z.ltb_spec (len bs) 2); [lia|].
  replace ((sum bs =? 0) || (len bs - sum bs =? 0))%bool with false
    by (symmetry; apply orb_false_iff; rewrite !Z.eqb_neq; auto).
  rewrite count_runs_Ok by (intros ->; change (len []) with 0 in Hn; lia).
  cbn [bind]. rewrite truediv_Ok by lia. cbn [bind].
  rewrite truediv_Ok by nia. cbn [bind].
  match goal with |- context [Rle_dec ?v 0] => set (variance := v) end.
  destruct (Rle_dec variance 0) as [Hv|Hv]; [eauto|].
  assert (Hpos : (0 < variance)%R) by lra.
  rewrite sqrt_Ok by lra. cbn [bind].
  rewrite fdiv_Ok by (pose proof (sqrt_lt_R0 _ Hpos); lra). cbn [bind].
  rewrite sqrt_Ok by lra. cbn [bind].
  rewrite fdiv_Ok by apply sqrt2_neq_0. cbn [bind].
  eauto.
Qed.

(** The bits of a buffer that is not empty are at least eight. *)
Lemma len_bits_nonempty (data : bytes) :
  data <> [] -> 8 <= len (bits_from_bytes data).
Proof.
  intros H. unfold len. rewrite length_bits_from_bytes.
  destruct data; [congruence | simpl length; lia].
Qed.

(** C6. On every buffer that is not empty, [runs_test] returns, and the
    number of runs it reports lies between 1 and the number [n] of bits,
    [n = 8 * len(data)]. *)
Theorem runs_test_runs_bounds (data : bytes) :
  data <> [] ->
  exists (p : float) (runs : Z) (expected z : float),
    runs_test data = Ok (p, runs, expected, z)
    /\ 1 <= runs <= 8 * len data.
Proof.
  intros Hne. pose proof (len_bits_nonempty data Hne) as Hn.
  assert (Hlen : len (bits_from_bytes data) = 8 * len data)
    by (unfold len; rewrite length_bits_from_bytes; lia).
  unfold runs_test. set (bs := bits_from_bytes data) in *.
  destruct (Z.eq_dec (sum bs) 0) as [H1|H1];
    [|destruct (Z.eq_dec (len bs - sum bs) 0) as [H0|H0]].
  - rewrite runs_test_bits_constant by (auto; lia).
    do 4 eexists. split; [reflexivity | lia].
  - rewrite runs_test_bits_constant by (auto; lia).
    do 4 eexists. split; [reflexivity | lia].
  - destruct (runs_test_bits_mixed bs) as (p & z & ->); [lia | auto | auto |].
    do 4 eexists. split; [reflexivity|].
    assert (Hbs : bs <> [])
      by (intros E; rewrite E in Hn; change (len []) with 0 in Hn; lia).
    pose proof (runs_of_bounds bs Hbs). lia.
Qed.

Lemma sum_bits_zero_bytes (k : nat) :
  sum (bits_from_bytes (replicate k x00)) = 0.
Proof.
  induction k as [|k IH]; [reflexivity|].
  simpl replicate. rewrite bits_from_bytes_cons, sum_app, IH. reflexivity.
Qed.

(** C7. On a buffer that is not empty and whose bits are all equal (no
    one, or no zero, among them), [runs_test] returns [runs = 1],
    [z = +infinity] and [p_value = 0]; a buffer of zero bytes of any
    positive length is such a buffer. *)
Theorem runs_test_constant_bits (data : bytes) :
  data <> [] ->
  (let bs := bits_from_bytes data in
   let ones := sum bs in
   let zeros := len bs - ones in
   ones = 0 \/ zeros = 0
   \/ exists k : nat, data = replicate k x00) ->
  exists expected : float,
    runs_test data = Ok (Fin 0, 1, expected, Inf).
Proof.
  intros Hne Hc. exists (Fin 0). unfold runs_test.
  apply runs_test_bits_constant.
  - pose proof (len_bits_nonempty data Hne). lia.
  - destruct Hc as [H|[H|(k & ->)]]; auto.
    left. apply sum_bits_zero_bytes.
Qed.

End RunsTest.

(** ** A model of the [math] interface *)

Lemma sigmoid_bounds (x : R) : (-1 <= sigmoid x <= 1)%R.
Proof.
  unfold sigmoid. set (s := R_sqrt.sqrt (1 + x * x)).
  assert (Hs : (0 < s)%R) by (apply sqrt_lt_R0; nra).
  assert (Hss : (s * s = 1 + x * x)%R) by (apply sqrt_sqrt; nra).
  assert (Hx : (- s <= x <= s)%R) by nra.
  split.
  - apply Rmult_le_reg_r with s; [exact Hs|].
    unfold Rdiv. rewrite Rmult_assoc, Rinv_l by lra. lra.
  - apply Rmult_le_reg_r with s; [exact Hs|].
    unfold Rdiv. rewrite Rmult_assoc, Rinv_l by lra. lra.
Qed.

Lemma sigmoid_nonneg (x : R) : (0 <= x)%R -> (0 <= sigmoid x)%R.
Proof.
  intros Hx. unfold sigmoid.
  assert (Hs : (0 < R_sqrt.sqrt (1 + x * x))%R) by (apply sqrt_lt_R0; nra).
  apply Rmult_le_pos; [exact Hx|]. left. now apply Rinv_0_lt_compat.
Qed.

Lemma sigmoid_complement_bounds (x : R) :
  (0 <= x)%R -> (0 <= 1 - sigmoid x <= 1)%R.
Proof.
  intros Hx. pose proof (sigmoid_bounds x). pose proof (sigmoid_nonneg x Hx).
  lra.
Qed.

Definition sigmoid_libm : Libm :=
  {| erf := sigmoid;
     erfc := fun x => (1 - sigmoid x)%R;
     erf_bounds := sigmoid_bounds;
     erfc_bounds := sigmoid_complement_bounds |}.

(** ** The runs test on particular buffers *)

Section RunsTestCases.

Context {libm : Libm}.
Import Py PyFacts.

(** C1, as the code has it. The bits of [0xFF, 0x00, 0xFF, 0x00] are
    sixteen ones and sixteen zeros, and [runs_test] counts 4 runs in
    them: the value changes at the three byte boundaries only. *)
Theorem alternating4_runs :
  let bs := bits_from_bytes alternating4 in
  let ones := sum bs in
  let zeros := len bs - ones in
  ones = 16 /\ zeros = 16
  /\ exists (p expected z : float),
       runs_test alternating4 = Ok (p, 4, expected, z).
Proof.
  cbv zeta. split; [reflexivity | split; [reflexivity|]].
  unfold runs_test.
  destruct (runs_test_bits_mixed (bits_from_bytes alternating4))
    as (p & z & H); [vm_compute; discriminate .. |].
  rewrite H. change (runs_of (bits_from_bytes alternating4)) with 4. eauto.
Qed.

(** C10. When the bits of a buffer that is not empty are all equal,
    [runs_test] returns [expected_runs = 0.0], where the general formula
    [1 + 2 * ones * zeros / n] has the value 1; and on a list of fewer
    than two bits (for a buffer: the empty one) it returns [runs = 0]
    with [expected_runs = 0.0]. *)
Theorem runs_test_degenerate_expected (data : bytes) :
  (data <> [] ->
   let bs := bits_from_bytes data in
   let n := len bs in
   let ones := sum bs in
   let zeros := n - ones in
   ones = 0 \/ zeros = 0 ->
   (exists (p : float) (runs : Z) (z : float),
       runs_test data = Ok (p, runs, Fin 0, z))
   /\ (1 + IZR (2 * ones * zeros) / IZR n)%R = 1%R)
  /\ (forall bs : list Z,
        len bs < 2 -> runs_test_bits bs = Ok (Fin 0, 0, Fin 0, Fin 0))
  /\ runs_test [] = Ok (Fin 0, 0, Fin 0, Fin 0).
Proof.
  split; [|split].
  - intros Hne bs n ones zeros Hc. split.
    + exists (Fin 0), 1, Inf. unfold runs_test.
      apply runs_test_bits_constant; [|exact Hc].
      pose proof (len_bits_nonempty data Hne). lia.
    + assert (E : 2 * ones * zeros = 0) by (destruct Hc as [-> | ->]; lia).
      rewrite E. unfold Rdiv. rewrite Rmult_0_l. lra.
  - apply runs_test_bits_short.
  - reflexivity.
Qed.

End RunsTestCases.

(** Against C1 as it was stated: the runs counted are not 8. *)
Lemma alternating4_runs_not_8 :
  let bs := bits_from_bytes alternating4 in
  count_runs bs (Py.len bs) = Ok 4 /\ count_runs bs (Py.len bs) <> Ok 8.
Proof. split; [reflexivity | vm_compute; discriminate]. Qed.

(** ** The properties with a premise, exercised on concrete buffers *)

Lemma runs_test_runs_bounds_witness :
  alternating4 <> []
  /\ exists (p : float) (runs : Z) (expected z : float),
       @runs_test sigmoid_libm alternating4 = Ok (p, runs, expected, z)
       /\ 1 <= runs <= 8 * Py.len alternating4.
Proof.
  split; [discriminate|].
  apply (@runs_test_runs_bounds sigmoid_libm alternating4). discriminate.
Defined.

Lemma runs_test_constant_bits_witness :
  exists expected : float,
    @runs_test sigmoid_libm [xff; xff] = Ok (Fin 0, 1, expected, Inf).
Proof.
  apply (@runs_test_constant_bits sigmoid_libm [xff; xff]).
  - discriminate.
  - right. left. reflexivity.
Defined.

Lemma runs_test_degenerate_expected_witness :
  (exists (p : float) (runs : Z) (z : float),
      @runs_test sigmoid_libm [x00] = Ok (p, runs, Fin 0, z))
  /\ @runs_test_bits sigmoid_libm [1] = Ok (Fin 0, 0, Fin 0, Fin 0).
Proof.
  destruct (@runs_test_degenerate_expected sigmoid_libm [x00]) as (H1 & H2 & _).
  split.
  - apply H1; [discriminate | left; reflexivity].
  - apply H2. reflexivity.
Defined.

(** ** The monobit test *)

Section Monobit.

Context {libm : Libm}.
Import Py PyFacts.

Lemma monobit_test_nonempty (data : bytes) :
  data <> [] ->
  let bs := bits_from_bytes data in
  let n := len bs in
  let ones := sum bs in
  let zeros := n - ones in
  let s := Z.abs (ones - zeros) in
  monobit_test data
  = Ok (Fin (erfc (IZR s / R_sqrt.sqrt (IZR n) / R_sqrt.sqrt 2)),
        Fin (IZR s / R_sqrt.sqrt (IZR n)), ones, zeros).
Proof.
  intros Hne bs n ones zeros s. unfold monobit_test. fold bs. fold n.
  pose proof (len_bits_nonempty data Hne) as Hn. fold bs in Hn. fold n in Hn.
  destruct (Z.eqb_spec n 0) as [E|_]; [lia|].
  assert (Hpos : (0 < IZR n)%R) by (apply IZR_lt; lia).
  rewrite sqrt_Ok by lra. cbn [bind].
  rewrite fdiv_Ok by (pose proof (sqrt_lt_R0 _ Hpos); lra). cbn [bind].
  rewrite sqrt_Ok by lra. cbn [bind].
  rewrite fdiv_Ok by apply sqrt2_neq_0. reflexivity.
Qed.

(** C5. On every buffer [monobit_test] returns, with
    [ones + zeros = n] for [n = 8 * len(data)] and [0 <= p_value <= 1];
    when [n > 0] the p-value is [erfc(|ones - zeros| / sqrt(2 * n))],
    [ones] being the number of one bits, and when [n = 0] all four
    components are zero. *)
Theorem monobit_test_invariant (data : bytes) :
  let n := 8 * len data in
  exists (p z : R) (ones zeros : Z),
    monobit_test data = Ok (Fin p, Fin z, ones, zeros)
    /\ ones = sum (bits_from_bytes data)
    /\ ones + zeros = n
    /\ (0 <= p <= 1)%R
    /\ (0 < n -> p = erfc (IZR (Z.abs (ones - zeros)) / R_sqrt.sqrt (2 * IZR n)))
    /\ (n = 0 -> p = 0%R /\ z = 0%R /\ ones = 0 /\ zeros = 0).
Proof.
  intros n.
  assert (Hlen : len (bits_from_bytes data) = n)
    by (unfold len, n; rewrite length_bits_from_bytes; unfold len; lia).
  destruct data as [|b data].
  - exists 0%R, 0%R, 0, 0. repeat split; try reflexivity; try lra.
    intros Hn. subst n. change (len []) with 0 in Hn. lia.
  - assert (Hne : b :: data <> []) by discriminate.
    pose proof (monobit_test_nonempty _ Hne) as H. cbv zeta in H.
    rewrite Hlen in H.
    set (ones := sum (bits_from_bytes (b :: data))) in *.
    set (s := Z.abs (ones - (n - ones))) in *.
    assert (Hn : 0 < n) by (unfold n; rewrite len_cons; pose proof (len_nonneg data); lia).
    assert (Hpos : (0 < IZR n)%R) by (apply IZR_lt; lia).
    assert (Hrn : (0 < R_sqrt.sqrt (IZR n))%R) by (apply sqrt_lt_R0; lra).
    assert (Hr2 : (0 < R_sqrt.sqrt 2)%R) by (apply sqrt_lt_R0; lra).
    assert (Hs : (0 <= IZR s)%R) by (apply IZR_le; unfold s; lia).
    assert (Harg : (0 <= IZR s / R_sqrt.sqrt (IZR n) / R_sqrt.sqrt 2)%R).
    { apply Rmult_le_pos; [apply Rmult_le_pos|]; try assumption;
        left; now apply Rinv_0_lt_compat. }
    eexists _, _, ones, (n - ones). split; [exact H|].
    split; [reflexivity|]. split; [lia|].
    split; [now apply erfc_bounds|]. split.
    + intros _. f_equal. fold s. rewrite sqrt_mult by lra.
      field. split; lra.
    + intros E. lia.
Qed.

End Monobit.

(** ** Sums over lists of integers *)

Section Sums.

Import Py PyFacts.

Lemma sumsq_cons (x : Z) (l : list Z) : sumsq (x :: l) = x * x + sumsq l.
Proof. unfold sumsq. simpl map. apply sum_cons. Qed.

Lemma sumsq_app (l1 l2 : list Z) : sumsq (l1 ++ l2) = sumsq l1 + sumsq l2.
Proof. unfold sumsq. rewrite map_app. apply sum_app. Qed.

Lemma sumsq_nonneg (l : list Z) : 0 <= sumsq l.
Proof.
  induction l as [|x l IH]; [unfold sumsq; simpl; rewrite sum_nil; lia|].
  rewrite sumsq_cons. nia.
Qed.

Lemma sqdist_cons (x y : Z) (l : list Z) :
  sqdist x (y :: l) = (x - y) * (x - y) + sqdist x l.
Proof. unfold sqdist. simpl map. apply sum_cons. Qed.

Lemma sqdist_nonneg (x : Z) (l : list Z) : 0 <= sqdist x l.
Proof.
  induction l as [|y l IH]; [unfold sqdist; simpl; rewrite sum_nil; lia|].
  rewrite sqdist_cons. pose proof (Z.square_nonneg (x - y)). lia.
Qed.

Lemma sqdist_expand (x : Z) (l : list Z) :
  sqdist x l = len l * (x * x) - 2 * x * sum l + sumsq l.
Proof.
  induction l as [|y l IH].
  - unfold sqdist, sumsq. simpl. rewrite sum_nil. change (len []) with 0. lia.
  - rewrite sqdist_cons, len_cons, sum_cons, sumsq_cons, IH. ring.
Qed.

Lemma sqdist_zero (x : Z) (l : list Z) :
  sqdist x l = 0 -> l = replicate (length l) x.
Proof.
  induction l as [|y l IH]; intros H; [reflexivity|].
  rewrite sqdist_cons in H. pose proof (sqdist_nonneg x l).
  pose proof (Z.square_nonneg (x - y)) as Hsq.
  assert (E : (x - y) * (x - y) = 0) by lia.
  apply Z.mul_eq_0 in E. assert (x = y) by lia. subst y.
  simpl. f_equal. apply IH. lia.
Qed.

(** Lagrange's identity, one element at a time. *)
Lemma dispersion_cons (x : Z) (l : list Z) :
  dispersion (x :: l) = dispersion l + sqdist x l.
Proof.
  unfold dispersion. rewrite len_cons, sum_cons, sumsq_cons, sqdist_expand.
  ring.
Qed.

Lemma dispersion_nonneg (l : list Z) : 0 <= dispersion l.
Proof.
  induction l as [|x l IH].
  - unfold dispersion, sumsq. simpl. rewrite sum_nil. change (len []) with 0. lia.
  - rewrite dispersion_cons. pose proof (sqdist_nonneg x l). lia.
Qed.

Lemma sum_replicate (k : nat) (v : Z) : sum (replicate k v) = Z.of_nat k * v.
Proof.
  induction k as [|k IH]; [reflexivity|].
  simpl replicate. rewrite sum_cons, IH. lia.
Qed.

Lemma sumsq_replicate (k : nat) (v : Z) :
  sumsq (replicate k v) = Z.of_nat k * (v * v).
Proof.
  induction k as [|k IH]; [reflexivity|].
  simpl replicate. rewrite sumsq_cons, IH. lia.
Qed.

(** The dispersion vanishes exactly on the constant lists. *)
Lemma dispersion_zero_iff (l : list Z) :
  dispersion l = 0 <-> exists v : Z, l = replicate (length l) v.
Proof.
  split.
  - destruct l as [|x l]; [exists 0; reflexivity|].
    intros H. exists x. rewrite dispersion_cons in H.
    pose proof (dispersion_nonneg l). pose proof (sqdist_nonneg x l).
    simpl. f_equal. apply sqdist_zero. lia.
  - intros (v & ->). unfold dispersion, len.
    rewrite length_replicate, sum_replicate, sumsq_replicate. ring.
Qed.

(** Twice a sum of products is at most the two sums of squares. *)
Lemma sum_products_le (a b : list Z) :
  2 * sum (zip_with Z.mul a b) <= sumsq a + sumsq b.
Proof.
  revert b. induction a as [|x a IH]; intros [|y b]; simpl zip_with.
  - rewrite sum_nil. pose proof (sumsq_nonneg []). lia.
  - rewrite sum_nil. pose proof (sumsq_nonneg []). pose proof (sumsq_nonneg (y :: b)). lia.
  - rewrite sum_nil. pose proof (sumsq_nonneg []). pose proof (sumsq_nonneg (x :: a)). lia.
  - rewrite sum_cons, !sumsq_cons. specialize (IH b).
    pose proof (Z.square_nonneg (x - y)). lia.
Qed.

Lemma sum_zip_add (a b : list Z) :
  length a = length b -> sum (zip_with Z.add a b) = sum a + sum b.
Proof.
  revert b. induction a as [|x a IH]; intros [|y b] H; try discriminate.
  - reflexivity.
  - simpl zip_with. rewrite !sum_cons, IH by (simpl in H; lia). lia.
Qed.

Lemma sumsq_zip_add (a b : list Z) :
  length a = length b ->
  sumsq (zip_with Z.add a b) = sumsq a + 2 * sum (zip_with Z.mul a b) + sumsq b.
Proof.
  revert b. induction a as [|x a IH]; intros [|y b] H; try discriminate.
  - reflexivity.
  - simpl zip_with. rewrite !sumsq_cons, sum_cons, IH by (simpl in H; lia). ring.
Qed.

(** The two bounds behind [-1 <= rho <= 1], for a list and its rotation
    by one place. *)
Lemma lag_bounds (y : Z) (l : list Z) :
  let xs := y :: l in
  let s12 := sum (zip_with Z.mul xs (l ++ [y])) in
  let numerator := len xs * s12 - sum xs * sum xs in
  - dispersion xs <= numerator <= dispersion xs.
Proof.
  intros xs s12 numerator.
  assert (Hlen : length xs = length (l ++ [y]))
    by (unfold xs; rewrite length_app; simpl; lia).
  assert (Hsum : sum (l ++ [y]) = sum xs)
    by (unfold xs; rewrite sum_app, !sum_cons, sum_nil; lia).
  assert (Hsq : sumsq (l ++ [y]) = sumsq xs).
  { unfold xs. rewrite sumsq_app, !sumsq_cons.
    change (sumsq []) with 0. lia. }
  pose proof (sum_products_le xs (l ++ [y])) as Hup. fold s12 in Hup.
  pose proof (dispersion_nonneg (zip_with Z.add xs (l ++ [y]))) as Hlow.
  unfold dispersion in Hlow.
  rewrite sum_zip_add, sumsq_zip_add, Hsum, Hsq in Hlow by assumption.
  fold s12 in Hlow.
  replace (len (zip_with Z.add xs (l ++ [y]))) with (len xs) in Hlow
    by (unfold len; rewrite length_zip_with_l_eq by assumption; reflexivity).
  rewrite Hsq in Hup. pose proof (len_nonneg xs).
  unfold numerator, dispersion. split; nia.
Qed.

End Sums.

(** ** The serial correlation *)

Section SerialCorrelation.

Import Py PyFacts.

Let lag_body (xs : list Z) (n : Z) : list Z -> Z -> result (list Z) :=
  fun acc i =>
    do x <- getitem xs i;
    do j <- mod_ (i + 1) n;
    do y <- getitem xs j;
    Ok (acc ++ [x * y]).

Lemma lag_products_from (h : Z) (pre : list Z) (y : Z) (l acc : list Z) :
  getitem (pre ++ y :: l) 0 = Ok h ->
  foldM (lag_body (pre ++ y :: l) (len (pre ++ y :: l)))
        (range2 (len pre) (len (pre ++ y :: l))) acc
  = Ok (acc ++ zip_with Z.mul (y :: l) (l ++ [h])).
Proof.
  revert pre y acc. induction l as [|x l IH]; intros pre y acc Hh.
  - rewrite len_app, len_cons. change (len []) with 0.
    pose proof (len_nonneg pre) as Hp.
    rewrite range2_cons, range2_nil by lia.
    cbn [foldM]. unfold lag_body. rewrite getitem_app_r. cbn [bind].
    unfold mod_. destruct (Z.eqb_spec (len pre + (0 + 1)) 0) as [E|_]; [lia|].
    cbn [bind]. replace (len pre + 1) with (len pre + (0 + 1)) by lia.
    rewrite Z_mod_same_full, Hh. reflexivity.
  - pose proof (len_nonneg pre) as Hp. pose proof (len_nonneg l) as Hl.
    assert (Hn : len (pre ++ y :: x :: l) = len pre + len l + 2)
      by (rewrite len_app, !len_cons; lia).
    rewrite range2_cons by lia.
    cbn [foldM]. unfold lag_body at 1. rewrite getitem_app_r. cbn [bind].
    unfold mod_. rewrite Hn.
    destruct (Z.eqb_spec (len pre + len l + 2) 0) as [E|_]; [lia|].
    cbn [bind]. rewrite Z.mod_small by lia.
    assert (Hx : getitem (pre ++ y :: x :: l) (len pre + 1) = Ok x).
    { replace (len pre + 1) with (len (pre ++ [y]))
        by (rewrite len_app, len_cons; change (len []) with 0; lia).
      replace (pre ++ y :: x :: l) with ((pre ++ [y]) ++ x :: l)
        by (now rewrite <- app_assoc).
      apply getitem_app_r. }
    rewrite Hx. cbn [bind].
    specialize (IH (pre ++ [y]) x (acc ++ [y * x])).
    replace ((pre ++ [y]) ++ x :: l) with (pre ++ y :: x :: l) in IH
      by (now rewrite <- app_assoc).
    replace (len (pre ++ [y])) with (len pre + 1) in IH
      by (rewrite len_app, len_cons; change (len []) with 0; lia).
    rewrite Hn in IH. rewrite IH by exact Hh.
    rewrite <- app_assoc. reflexivity.
Qed.

Lemma lag_products_Ok (y : Z) (l : list Z) :
  lag_products (y :: l) (len (y :: l))
  = Ok (zip_with Z.mul (y :: l) (l ++ [y])).
Proof.
  exact (lag_products_from y [] y l [] eq_refl).
Qed.

(** The rotation form of the circular lag-1 sum agrees with the indexed
    one. *)
Lemma lag1_terms_from (h : Z) (pre : list Z) (y : Z) (l : list Z) :
  nth 0 (pre ++ y :: l) 0 = h ->
  map (fun i => nth i (pre ++ y :: l) 0
                * nth ((i + 1) mod length (pre ++ y :: l)) (pre ++ y :: l) 0)
      (seq (length pre) (length (y :: l)))
  = zip_with Z.mul (y :: l) (l ++ [h]).
Proof.
  revert pre y. induction l as [|x l IH]; intros pre y Hh.
  - simpl seq. simpl map. rewrite length_app. simpl length.
    replace (length pre + 1)%nat with (S (length pre)) by lia.
    rewrite Nat.Div0.mod_same, Hh.
    rewrite app_nth2, Nat.sub_diag by lia. reflexivity.
  - change (seq (length pre) (length (y :: x :: l)))
      with (length pre :: seq (S (length pre)) (length (x :: l))).
    cbn [map].
    assert (Hn : length (pre ++ y :: x :: l) = (length pre + length l + 2)%nat)
      by (rewrite length_app; simpl; lia).
    rewrite Hn. rewrite Nat.mod_small by lia.
    rewrite app_nth2, Nat.sub_diag by lia. cbn [nth].
    rewrite app_nth2 by lia.
    replace (length pre + 1 - length pre)%nat with 1%nat by lia. cbn [nth].
    cbn [zip_with app]. f_equal.
    specialize (IH (pre ++ [y]) x).
    replace ((pre ++ [y]) ++ x :: l) with (pre ++ y :: x :: l) in IH
      by (now rewrite <- app_assoc).
    rewrite Hn in IH.
    replace (length (pre ++ [y])) with (S (length pre)) in IH
      by (rewrite length_app; simpl; lia).
    apply IH. exact Hh.
Qed.

Lemma lag1_sum_rotation (y : Z) (l : list Z) :
  lag1_sum (y :: l) = sum (zip_with Z.mul (y :: l) (l ++ [y])).
Proof.
  unfold lag1_sum. f_equal. exact (lag1_terms_from y [] y l eq_refl).
Qed.

(** The value of [serial_correlation], branch by branch. *)
Lemma serial_correlation_value (data : bytes) :
  let xs := ints data in
  let n := len xs in
  let numerator := n * lag1_sum xs - sum xs * sum xs in
  let denominator := n * sumsq xs - sum xs * sum xs in
  serial_correlation data
  = Ok (Fin (if n <? 2 then 0
             else if denominator =? 0 then 0
             else IZR numerator / IZR denominator)%R).
Proof.
  intros xs n numerator denominator.
  unfold serial_correlation. fold xs. fold n.
  destruct (Z.ltb_spec n 2) as [Hn|Hn]; [reflexivity|].
  subst numerator denominator n.
  destruct xs as [|y l]; [change (len []) with 0 in Hn; lia|].
  rewrite lag_products_Ok. cbn [bind]. rewrite <- lag1_sum_rotation.
  fold (sumsq (y :: l)).
  destruct (Z.eqb_spec (len (y :: l) * sumsq (y :: l) - sum (y :: l) * sum (y :: l)) 0)
    as [Hd|Hd]; [reflexivity|].
  rewrite truediv_Ok by exact Hd. reflexivity.
Qed.

Lemma ratio_bounds (a d : Z) :
  d <> 0 -> - d <= a <= d -> (-1 <= IZR a / IZR d <= 1)%R.
Proof.
  intros Hd Ha.
  assert (Hpos : (0 < IZR d)%R) by (apply IZR_lt; lia).
  assert (Hlo : (- IZR d <= IZR a)%R) by (rewrite <- opp_IZR; apply IZR_le; lia).
  assert (Hhi : (IZR a <= IZR d)%R) by (apply IZR_le; lia).
  split.
  - apply Rmult_le_reg_r with (IZR d); [exact Hpos|].
    unfold Rdiv. rewrite Rmult_assoc, Rinv_l by lra. lra.
  - apply Rmult_le_reg_r with (IZR d); [exact Hpos|].
    unfold Rdiv. rewrite Rmult_assoc, Rinv_l by lra. lra.
Qed.

(** C2. On every buffer [serial_correlation] returns a value [rho] with
    [-1 <= rho <= 1]. It is 0 when the buffer has fewer than two bytes and
    when the denominator [n * S2 - S1 ^ 2] is zero, which is the case
    exactly when all the bytes are equal; otherwise it is the ratio
    [(n * S12 - S1 ^ 2) / (n * S2 - S1 ^ 2)], where [S12] is the circular
    lag-1 sum. *)
Theorem serial_correlation_range (data : bytes) :
  let xs := ints data in
  let n := len xs in
  let s1 := sum xs in
  let s2 := sumsq xs in
  let s12 := lag1_sum xs in
  let numerator := n * s12 - s1 * s1 in
  let denominator := n * s2 - s1 * s1 in
  exists rho : R,
    serial_correlation data = Ok (Fin rho)
    /\ (-1 <= rho <= 1)%R
    /\ (n < 2 \/ denominator = 0 -> rho = 0%R)
    /\ (2 <= n -> denominator <> 0 ->
        rho = (IZR numerator / IZR denominator)%R)
    /\ (denominator = 0 <-> exists v : Z, xs = replicate (length xs) v).
Proof.
  intros xs n s1 s2 s12 numerator denominator.
  assert (Hiff : denominator = 0 <-> exists v : Z, xs = replicate (length xs) v)
    by apply dispersion_zero_iff.
  eexists. split; [apply serial_correlation_value|]. fold xs n.
  fold s1 s2 s12. fold numerator denominator.
  destruct (Z.ltb_spec n 2) as [Hn|Hn];
    [|destruct (Z.eqb_spec denominator 0) as [Hd|Hd]].
  - repeat split; try lra; try lia; apply Hiff.
  - repeat split; try lra; try lia; apply Hiff.
  - split; [|split; [|split; [reflexivity | exact Hiff]]].
    + apply ratio_bounds; [exact Hd|].
      destruct xs as [|y l] eqn:Exs; [change (len []) with 0 in n; lia|].
      pose proof (lag_bounds y l) as Hb. cbv zeta in Hb.
      rewrite <- lag1_sum_rotation in Hb. exact Hb.
    + intros [H|H]; [lia | contradiction].
Qed.

End SerialCorrelation.

(** ** The byte counts *)

Section ByteCounts.

Import Py PyFacts.

Let count_body : list Z -> Z -> result (list Z) :=
  fun counts b =>
    do c <- getitem counts b;
    setitem counts b (c + 1).

Lemma count_body_Ok (cs : list Z) (x c : Z) :
  0 <= x -> cs !! Z.to_nat x = Some c ->
  count_body cs x = Ok (<[Z.to_nat x := c + 1]> cs).
Proof.
  intros Hx Hc. unfold count_body.
  remember (Z.to_nat x) as i eqn:Ei.
  assert (E : x = Z.of_nat i) by lia. rewrite E.
  rewrite (getitem_lookup _ _ _ Hc). cbn [bind].
  apply setitem_lookup. apply lookup_lt_is_Some. eauto.
Qed.

Lemma sum_insert (cs : list Z) (i : nat) (c v : Z) :
  cs !! i = Some c -> sum (<[i := v]> cs) = sum cs - c + v.
Proof.
  revert i. induction cs as [|y cs IH]; intros i H; [discriminate|].
  destruct i as [|i]; simpl in *.
  - injection H as ->. rewrite !sum_cons. lia.
  - rewrite !sum_cons, (IH i H). lia.
Qed.

Lemma Forall_nonneg_insert (cs : list Z) (i : nat) (v : Z) :
  0 <= v -> Forall (Z.le 0) cs -> Forall (Z.le 0) (<[i := v]> cs).
Proof.
  intros Hv H. revert i. induction H as [|y cs Hy H IH]; intros i.
  - constructor.
  - destruct i as [|i]; simpl; constructor; auto.
Qed.

(** The counting loop from any table of 256 entries: it succeeds, and
    adds to each entry the number of occurrences of its index. *)
Lemma byte_counts_from (xs cs : list Z) :
  length cs = 256%nat ->
  Forall (fun x => 0 <= x < 256) xs ->
  exists cs' : list Z,
    foldM count_body xs cs = Ok cs'
    /\ length cs' = 256%nat
    /\ sum cs' = sum cs + len xs
    /\ (Forall (Z.le 0) cs -> Forall (Z.le 0) cs')
    /\ (forall (v : nat) (c : Z),
          cs !! v = Some c -> cs' !! v = Some (c + occ (Z.of_nat v) xs)).
Proof.
  intros Hlen Hxs. revert cs Hlen.
  induction Hxs as [|x xs Hx Hxs IH]; intros cs Hlen.
  - exists cs. split; [reflexivity|]. split; [exact Hlen|].
    split; [change (len []) with 0; lia|]. split; [auto|].
    intros v c H. simpl. rewrite H. f_equal. lia.
  - destruct (lookup_lt_is_Some_2 cs (Z.to_nat x)) as [c Hc]; [lia|].
    cbn [foldM]. rewrite (count_body_Ok cs x c) by (lia || exact Hc).
    cbn [bind].
    destruct (IH (<[Z.to_nat x := c + 1]> cs)) as (cs' & Hf & Hl & Hs & Hnn & Hlk).
    { rewrite length_insert. exact Hlen. }
    exists cs'. split; [exact Hf|]. split; [exact Hl|]. split; [|split].
    + rewrite Hs, (sum_insert _ _ _ _ Hc), len_cons. lia.
    + intros Hcs. apply Hnn. apply Forall_nonneg_insert; [|exact Hcs].
      pose proof (proj1 (Forall_lookup _ _) Hcs _ _ Hc). simpl in *. lia.
    + intros v c0 Hv. cbn [occ].
      destruct (Nat.eq_dec (Z.to_nat x) v) as [E|E].
      * subst v. rewrite Hc in Hv. injection Hv as <-.
        rewrite (Hlk (Z.to_nat x) (c + 1)).
        -- f_equal. rewrite Z2Nat.id by lia. rewrite Z.eqb_refl. lia.
        -- apply list_lookup_insert_eq. apply lookup_lt_is_Some. eauto.
      * rewrite (Hlk v c0) by (rewrite list_lookup_insert_ne; assumption).
        f_equal. destruct (Z.eqb_spec x (Z.of_nat v)) as [E'|_]; [|lia].
        exfalso. apply E. lia.
Qed.

Lemma ints_range (data : bytes) : Forall (fun x => 0 <= x < 256) (ints data).
Proof.
  unfold ints. apply Forall_forall. intros x Hx.
  apply list_elem_of_In, in_map_iff in Hx. destruct Hx as (b & <- & _).
  apply int_of_byte_range.
Qed.

Lemma len_ints (data : bytes) : len (ints data) = len data.
Proof. unfold len, ints. now rewrite length_map. Qed.

(** [byte_counts] succeeds on every buffer; the table has 256 entries,
    none negative, which add up to the length of the buffer, entry [v]
    being the number of occurrences of [v]. *)
Lemma byte_counts_Ok (data : bytes) :
  exists cs : list Z,
    byte_counts data = Ok cs
    /\ length cs = 256%nat
    /\ sum cs = len data
    /\ Forall (Z.le 0) cs
    /\ (forall v : nat, (v < 256)%nat ->
          cs !! v = Some (occ (Z.of_nat v) (ints data))).
Proof.
  destruct (byte_counts_from (ints data) (replicate 256 0))
    as (cs & Hf & Hl & Hs & Hnn & Hlk).
  - apply length_replicate.
  - apply ints_range.
  - exists cs. split; [exact Hf|]. split; [exact Hl|]. split; [|split].
    + rewrite Hs, sum_replicate, len_ints. lia.
    + apply Hnn. apply Forall_replicate. lia.
    + intros v Hv. rewrite (Hlk v 0); [f_equal; lia|].
      now apply lookup_replicate_2.
Qed.

Lemma byte_counts_tally (data : bytes) : byte_counts data = Ok (tally data).
Proof.
  destruct (byte_counts_Ok data) as (cs & Hf & Hl & _ & _ & Hlk).
  rewrite Hf. f_equal. apply list_eq. intros i.
  unfold tally, range, range2. change (Z.to_nat (256 - 0)) with 256%nat.
  rewrite map_map, list_lookup_fmap.
  destruct (Nat.lt_ge_cases i 256) as [Hi|Hi].
  - rewrite (Hlk i Hi), lookup_seq_lt by exact Hi. reflexivity.
  - rewrite lookup_ge_None_2 by lia.
    rewrite lookup_ge_None_2 by (rewrite length_seq; lia). reflexivity.
Qed.

Lemma tally_facts (data : bytes) :
  length (tally data) = 256%nat
  /\ sum (tally data) = len data
  /\ Forall (Z.le 0) (tally data).
Proof.
  destruct (byte_counts_Ok data) as (cs & Hf & Hl & Hs & Hnn & _).
  rewrite byte_counts_tally in Hf. injection Hf as <-. auto.
Qed.

Lemma tally_each_byte_once (data : bytes) :
  each_byte_once data = true -> tally data = replicate 256 1.
Proof.
  intros H. unfold each_byte_once in H. rewrite forallb_forall in H.
  unfold tally. change (replicate 256 1) with (map (fun _ : Z => 1) (range 256)).
  apply map_ext_in. intros v Hv. apply Z.eqb_eq, H, Hv.
Qed.

End ByteCounts.

(** ** The Shannon entropy *)

Section Entropy.

Import Py PyFacts.

Lemma ln_le_pred (t : R) : (0 < t)%R -> (ln t <= t - 1)%R.
Proof.
  intros Ht. pose proof (exp_ineq1_le (ln t)) as H.
  rewrite exp_ln in H by exact Ht. lra.
Qed.

Lemma ln2_pos : (0 < ln 2)%R.
Proof. pose proof ln_lt_2. lra. Qed.


Lemma sum_nonneg (cs : list Z) : Forall (Z.le 0) cs -> 0 <= sum cs.
Proof.
  induction 1 as [|c cs Hc _ IH]; [rewrite sum_nil; lia|].
  rewrite sum_cons. lia.
Qed.

Let entropy_body (n : Z) : R -> Z -> result R :=
  fun entropy c =>
    if c =? 0 then Ok entropy
    else
      do p <- truediv c n;
      do l <- math.log2 p;
      Ok (entropy - p * l)%R.

Lemma entropy_loop (n : Z) (cs : list Z) (e : R) :
  0 < n -> Forall (Z.le 0) cs ->
  foldM (entropy_body n) cs e = Ok (e + Rsum (map (entropy_term n) cs))%R.
Proof.
  intros Hn Hcs. revert e. induction Hcs as [|c cs Hc _ IH]; intros e.
  - simpl. f_equal. lra.
  - cbn [foldM map Rsum fold_right]. unfold entropy_body at 1, entropy_term at 1.
    destruct (Z.eqb_spec c 0) as [E|E]; cbn [bind].
    + rewrite IH. f_equal. unfold Rsum. lra.
    + rewrite truediv_Ok by lia. cbn [bind].
      assert (Hp : (0 < IZR c / IZR n)%R).
      { apply Rdiv_lt_0_compat; apply IZR_lt; lia. }
      rewrite log2_Ok by exact Hp. cbn [bind].
      rewrite IH. f_equal. unfold Rsum. lra.
Qed.

Lemma entropy_term_nonneg (n c : Z) :
  0 < n -> 0 <= c <= n -> (0 <= entropy_term n c)%R.
Proof.
  intros Hn Hc. unfold entropy_term.
  destruct (Z.eqb_spec c 0) as [E|E]; [lra|].
  assert (Hcn : (0 < IZR c <= IZR n)%R)
    by (split; [apply IZR_lt | apply IZR_le]; lia).
  assert (Hnr : (0 < IZR n)%R) by (apply IZR_lt; lia).
  set (p := (IZR c / IZR n)%R).
  assert (Hp : (0 < p <= 1)%R).
  { unfold p. split; [apply Rdiv_lt_0_compat; lra|].
    apply Rmult_le_reg_r with (IZR n); [exact Hnr|].
    unfold Rdiv. rewrite Rmult_assoc, Rinv_l by lra. lra. }
  pose proof (ln_le_pred p (proj1 Hp)) as Hl. pose proof ln2_pos as H2.
  assert (Hq : (ln p / ln 2 <= 0)%R).
  { apply Rmult_le_reg_r with (ln 2); [exact H2|].
    unfold Rdiv. rewrite Rmult_assoc, Rinv_l by lra. lra. }
  nra.
Qed.




End Entropy.

Section EntropyRange.

Import Py PyFacts.

Lemma shannon_entropy_nonempty (data : bytes) :
  data <> [] ->
  shannon_entropy_per_byte data
  = Ok (Fin (Rsum (map (entropy_term (len data)) (tally data)))).
Proof.
  intros Hne. destruct data as [|b data]; [congruence|].
  unfold shannon_entropy_per_byte. rewrite byte_counts_tally. cbn [bind].
  destruct (tally_facts (b :: data)) as (_ & _ & Hnn).
  rewrite entropy_loop by (rewrite ?len_cons; pose proof (len_nonneg data); lia || exact Hnn).
  cbn [bind]. do 2 f_equal. lra.
Qed.




End EntropyRange.

(** ** The byte chi-square test *)

Section ChiSquare.

Context {libm : Libm}.
Import Py PyFacts.

Let chi_body (expected : R) : R -> Z -> result R :=
  fun chi c =>
    let diff := (IZR c - expected)%R in
    do t <- fdiv (diff * diff) expected;
    Ok (chi + t)%R.

Lemma chi_loop (expected : R) (cs : list Z) (e : R) :
  (0 < expected)%R ->
  foldM (chi_body expected) cs e
  = Ok (e + Rsum (map (chi_term expected) cs))%R.
Proof.
  intros He. revert e. induction cs as [|c cs IH]; intros e.
  - simpl. f_equal. lra.
  - cbn [foldM map Rsum fold_right]. unfold chi_body at 1.
    rewrite fdiv_Ok by lra. cbn [bind]. rewrite IH. f_equal.
    unfold Rsum, chi_term. lra.
Qed.

Lemma chi_sum_nonneg (expected : R) (cs : list Z) :
  (0 < expected)%R -> (0 <= Rsum (map (chi_term expected) cs))%R.
Proof.
  intros He. induction cs as [|c cs IH]; [simpl; lra|].
  cbn [map Rsum fold_right]. fold (Rsum (map (chi_term expected) cs)).
  assert (0 <= chi_term expected c)%R.
  { unfold chi_term. apply Rmult_le_pos.
    - apply (Rle_0_sqr (IZR c - expected)).
    - left. now apply Rinv_0_lt_compat. }
  lra.
Qed.

Lemma fpow_third (x : R) :
  (0 <= x)%R -> fpow x (1 / 3) = Ok (cube_root x).
Proof.
  intros Hx. unfold fpow, cube_root.
  destruct (Rlt_dec x 0); [lra|].
  destruct (Req_dec_T x 0); [|reflexivity].
  destruct (Rlt_dec (1 / 3) 0); [lra|].
  destruct (Req_dec_T (1 / 3) 0); [lra | reflexivity].
Qed.

Lemma byte_chi_square_nonempty (data : bytes) :
  data <> [] ->
  byte_chi_square data
  = Ok (Fin (chi_statistic data),
        Fin (1 - Phi (wilson_hilferty_z (chi_statistic data)))).
Proof.
  intros Hne. unfold byte_chi_square.
  assert (Hn : 0 < len data)
    by (destruct data; [congruence | rewrite len_cons; pose proof (len_nonneg data); lia]).
  destruct (Z.eqb_spec (len data) 0) as [E|_]; [lia|].
  rewrite byte_counts_tally. cbn [bind].
  rewrite fdiv_Ok by lra. cbn [bind].
  assert (He : (0 < IZR (len data) / 256)%R)
    by (apply Rdiv_lt_0_compat; [apply IZR_lt; lia | lra]).
  pose proof (chi_loop (IZR (len data) / 256) (tally data) 0 He) as Hloop.
  unfold chi_body in Hloop. cbv zeta in Hloop. rewrite Hloop. cbn [bind].
  rewrite Rplus_0_l. fold (chi_statistic data).
  pose proof (chi_sum_nonneg _ (tally data) He) as Hchi.
  fold (chi_statistic data) in Hchi.
  rewrite fdiv_Ok by lra. cbn [bind].
  rewrite fdiv_Ok by lra. cbn [bind].
  rewrite fpow_third
    by (apply Rmult_le_pos; [exact Hchi | left; apply Rinv_0_lt_compat; lra]).
  cbn [bind]. change (9 * 255) with 2295.
  rewrite truediv_Ok by lia. cbn [bind].
  assert (Hv : (0 < 2 / 2295)%R) by lra.
  rewrite sqrt_Ok by lra. cbn [bind].
  rewrite fdiv_Ok by (pose proof (sqrt_lt_R0 _ Hv); lra). cbn [bind].
  rewrite sqrt_Ok by lra. cbn [bind].
  rewrite fdiv_Ok by apply sqrt2_neq_0. cbn [bind].
  unfold Phi, wilson_hilferty_z.
  replace (9 * 255)%R with 2295%R by lra. reflexivity.
Qed.

(** C9. On every buffer [byte_chi_square] returns, with its [p_approx]
    between 0 and 1: it is 0 on the empty buffer, and otherwise
    [1 - Phi(z)] for the Wilson-Hilferty [z] of the chi-square statistic,
    [Phi] being computed through [erf]. *)
Theorem byte_chi_square_p_range (data : bytes) :
  exists chi p : R,
    byte_chi_square data = Ok (Fin chi, Fin p)
    /\ (0 <= p <= 1)%R
    /\ (data = [] -> p = 0%R)
    /\ (data <> [] ->
        chi = chi_statistic data
        /\ p = (1 - Phi (wilson_hilferty_z chi))%R
        /\ (0 <= Phi (wilson_hilferty_z chi) <= 1)%R).
Proof.
  destruct data as [|b data].
  - exists 0%R, 0%R. split; [reflexivity|]. split; [lra|].
    split; [reflexivity | congruence].
  - assert (Hne : b :: data <> []) by discriminate.
    eexists _, _. split; [apply (byte_chi_square_nonempty _ Hne)|].
    set (z := wilson_hilferty_z (chi_statistic (b :: data))).
    assert (HPhi : (0 <= Phi z <= 1)%R).
    { unfold Phi. pose proof (erf_bounds (z / R_sqrt.sqrt 2)). lra. }
    split; [lra|]. split; [congruence|]. intros _. auto.
Qed.

End ChiSquare.

(** ** Totality *)

Section Totality.

Context {libm : Libm}.
Import Py PyFacts.

(** C3. On every buffer, the empty one included, each of the five tests
    returns a result and raises no exception; on the empty buffer each
    returns its degenerate result, which is [0.0] for
    [shannon_entropy_per_byte] and for [serial_correlation]. *)
Theorem tests_total (data : bytes) :
  ((exists r, monobit_test data = Ok r)
   /\ (exists r, runs_test data = Ok r)
   /\ (exists r, byte_chi_square data = Ok r)
   /\ (exists r, shannon_entropy_per_byte data = Ok r)
   /\ (exists r, serial_correlation data = Ok r))
  /\ (monobit_test [] = Ok (Fin 0, Fin 0, 0, 0)
      /\ runs_test [] = Ok (Fin 0, 0, Fin 0, Fin 0)
      /\ byte_chi_square [] = Ok (Fin 0, Fin 0)
      /\ shannon_entropy_per_byte [] = Ok (Fin 0)
      /\ serial_correlation [] = Ok (Fin 0)).
Proof.
  split; [|repeat split].
  destruct data as [|b data]; [repeat split; eexists; reflexivity|].
  assert (Hne : b :: data <> []) by discriminate.
  split; [|split; [|split; [|split]]].
  - eexists. apply (monobit_test_nonempty _ Hne).
  - unfold runs_test. set (bs := bits_from_bytes (b :: data)).
    pose proof (len_bits_nonempty _ Hne) as Hn. fold bs in Hn.
    destruct (Z.eq_dec (sum bs) 0) as [H1|H1];
      [|destruct (Z.eq_dec (len bs - sum bs) 0) as [H0|H0]].
    + eexists. apply runs_test_bits_constant; [lia | auto].
    + eexists. apply runs_test_bits_constant; [lia | auto].
    + destruct (runs_test_bits_mixed bs) as (p & z & H); [lia | auto | auto |].
      eexists. exact H.
  - eexists. apply (byte_chi_square_nonempty _ Hne).
  - eexists. apply (shannon_entropy_nonempty _ Hne).
  - eexists. apply serial_correlation_value.
Qed.

End Totality.


(** ** Reading the device: the text functions *)

Section TextFacts.

Import Text.














End TextFacts.

(** ** Reading the device: [run_bb_and_read_hex] *)

Section DeviceFacts.

Import Text BB.

Variable subprocess_run : str -> Z -> R -> run_outcome.







Lemma expected_len_pos (bits : Z) : 0 < bits -> 1 <= (bits + 7) / 8.
Proof. intros H. apply Z.div_le_lower_bound; lia. Qed.


(** X2. Whatever the process prints, the buffer that
    [run_bb_and_read_hex] returns has exactly [(bits + 7) // 8] bytes. *)
Theorem run_bb_exact_length (bits : Z) (bb_path : str) (timeout_s : R)
        (data : Py.bytes) :
  run_bb_and_read_hex subprocess_run bits bb_path timeout_s = Return data ->
  0 < bits /\ Py.len data = (bits + 7) / 8.
Proof.
  unfold run_bb_and_read_hex. destruct (Z.leb_spec bits 0) as [Hb|Hb];
    [discriminate|].
  pose proof (expected_len_pos bits Hb) as He.
  destruct (subprocess_run bb_path bits timeout_s); try discriminate.
  destruct (find_hex_line (splitlines stdout)) as [[|c h]|]; try discriminate.
  destruct (fromhex (remove_spaces (c :: h))) as [raw|]; try discriminate.
  destruct (Z.eqb_spec (Py.len raw) ((bits + 7) / 8)) as [E|E].
  - intros H. injection H as <-. auto.
  - destruct (Z.ltb_spec (Py.len raw) ((bits + 7) / 8)) as [Hl|Hl];
      intros H; injection H as <-; split; try lia.
    + unfold Py.len in *. rewrite length_app, length_replicate. lia.
    + unfold slice_to. destruct (Z.ltb_spec ((bits + 7) / 8) 0); [lia|].
      unfold Py.len in *. rewrite length_take. lia.
Qed.



End DeviceFacts.

(** ** More on the runs test *)

Section RunsMore.

Context {libm : Libm}.
Import Py PyFacts.

Lemma sum_bits_bounds (bs : list Z) :
  Forall (fun x => x = 0 \/ x = 1) bs -> 0 <= sum bs <= len bs.
Proof.
  induction 1 as [|x bs Hx _ IH]; [rewrite sum_nil; change (len []) with 0; lia|].
  rewrite sum_cons, len_cons. lia.
Qed.

Lemma flips_constant (c : Z) (bs : list Z) :
  Forall (eq c) bs -> flips c bs = 0.
Proof.
  induction 1 as [|x bs <- _ IH]; [reflexivity|].
  simpl. rewrite Z.eqb_refl. exact IH.
Qed.

Lemma bits_all_zero (bs : list Z) :
  Forall (fun x => x = 0 \/ x = 1) bs -> sum bs = 0 -> Forall (eq 0) bs.
Proof.
  induction 1 as [|x bs Hx Hbs IH]; intros Hs; [constructor|].
  rewrite sum_cons in Hs. pose proof (sum_bits_bounds bs Hbs).
  constructor; [lia | apply IH; lia].
Qed.

Lemma bits_all_one (bs : list Z) :
  Forall (fun x => x = 0 \/ x = 1) bs -> len bs - sum bs = 0 -> Forall (eq 1) bs.
Proof.
  induction 1 as [|x bs Hx Hbs IH]; intros Hs; [constructor|].
  rewrite sum_cons, len_cons in Hs. pose proof (sum_bits_bounds bs Hbs).
  constructor; [lia | apply IH; lia].
Qed.

Lemma runs_of_constant (bs : list Z) :
  Forall (fun x => x = 0 \/ x = 1) bs -> bs <> [] ->
  sum bs = 0 \/ len bs - sum bs = 0 -> runs_of bs = 1.
Proof.
  intros Hb Hne Hc.
  assert (Hall : exists c, Forall (eq c) bs).
  { destruct Hc as [H|H]; [exists 0; now apply bits_all_zero
                          | exists 1; now apply bits_all_one]. }
  destruct Hall as (c & Hall). destruct bs as [|x bs]; [congruence|].
  inversion Hall as [|? ? Hx Hall']; subst. simpl.
  rewrite (flips_constant x bs Hall'). reflexivity.
Qed.

(** With both values among at least three bits, the variance of the
    number of runs is positive. *)
Lemma runs_variance_pos (n ones : Z) :
  3 <= n -> 1 <= ones <= n - 1 ->
  let zeros := n - ones in
  (0 < IZR (2 * ones * zeros * (2 * ones * zeros - n))
       / IZR (n ^ 2 * (n - 1)))%R.
Proof.
  intros Hn Ho zeros.
  assert (Hoz : n - 1 <= ones * zeros) by (unfold zeros; nia).
  apply Rdiv_lt_0_compat; apply IZR_lt; nia.
Qed.

(** The value of [runs_test] when both bit values occur in the buffer. *)
Lemma runs_test_mixed_value (data : bytes) :
  let bs := bits_from_bytes data in
  let n := len bs in
  let ones := sum bs in
  let zeros := n - ones in
  let runs := runs_of bs in
  let expected := (1 + IZR (2 * ones * zeros) / IZR n)%R in
  let variance :=
    (IZR (2 * ones * zeros * (2 * ones * zeros - n))
     / IZR (n ^ 2 * (n - 1)))%R in
  let z := ((IZR runs - expected) / R_sqrt.sqrt variance)%R in
  ones <> 0 -> zeros <> 0 ->
  (0 < variance)%R
  /\ runs_test data
     = Ok (Fin (erfc (Rabs z / R_sqrt.sqrt 2)), runs, Fin expected, Fin z).
Proof.
  intros bs n ones zeros runs expected variance z H1 H0.
  assert (Hne : data <> []) by (intros ->; apply H1; reflexivity).
  pose proof (len_bits_nonempty data Hne) as Hn. fold bs n in Hn.
  pose proof (sum_bits_bounds bs (bits_from_bytes_01 data)) as Hs.
  fold ones n in Hs.
  assert (Hv : (0 < variance)%R)
    by (apply runs_variance_pos; unfold zeros in H0; lia).
  split; [exact Hv|].
  unfold runs_test, runs_test_bits. fold bs n ones zeros.
  destruct (Z.ltb_spec n 2); [lia|].
  replace ((ones =? 0) || (zeros =? 0))%bool with false
    by (symmetry; apply orb_false_iff; rewrite !Z.eqb_neq; auto).
  unfold n at 1. rewrite count_runs_Ok
    by (intros E; unfold n in Hn; rewrite E in Hn; change (len []) with 0 in Hn; lia).
  cbn [bind]. rewrite truediv_Ok by lia. cbn [bind].
  rewrite truediv_Ok by nia. cbn [bind]. fold variance.
  destruct (Rle_dec variance 0) as [Hle|_]; [lra|].
  rewrite sqrt_Ok by lra. cbn [bind].
  rewrite fdiv_Ok by (pose proof (sqrt_lt_R0 _ Hv); lra). cbn [bind].
  rewrite sqrt_Ok by lra. cbn [bind].
  rewrite fdiv_Ok by apply sqrt2_neq_0. reflexivity.
Qed.

(** X5. On every buffer that is not empty, the number of runs that
    [runs_test] returns is the number of maximal runs of equal bits in the
    bit sequence, in the early return for constant bits as in the loop. *)
Theorem runs_test_counts_maximal_runs (data : bytes) :
  data <> [] ->
  exists (p expected z : float),
    runs_test data = Ok (p, runs_of (bits_from_bytes data), expected, z).
Proof.
  intros Hne. set (bs := bits_from_bytes data).
  pose proof (len_bits_nonempty data Hne) as Hn. fold bs in Hn.
  assert (Hbs : bs <> [])
    by (intros E; rewrite E in Hn; change (len []) with 0 in Hn; lia).
  destruct (Z.eq_dec (sum bs) 0) as [H1|H1];
    [|destruct (Z.eq_dec (len bs - sum bs) 0) as [H0|H0]].
  - rewrite (runs_of_constant bs);
      [|apply bits_from_bytes_01 | exact Hbs | auto].
    unfold runs_test. fold bs.
    rewrite runs_test_bits_constant; [eauto | lia | auto].
  - rewrite (runs_of_constant bs);
      [|apply bits_from_bytes_01 | exact Hbs | auto].
    unfold runs_test. fold bs.
    rewrite runs_test_bits_constant; [eauto | lia | auto].
  - destruct (runs_test_mixed_value data) as (_ & H); [exact H1 | exact H0 |].
    rewrite H. eauto.
Qed.

(** X6. On a buffer in which both bit values occur, the variance of the
    runs statistic is positive, so that [runs_test] never takes its
    return for a variance that is not positive: [z] is the finite
    [(runs - expected) / sqrt(variance)], and the p-value is
    [erfc(|z| / sqrt(2))], between 0 and 1. An infinite [z] is returned
    for constant bits only. *)
Theorem runs_test_mixed_statistic (data : bytes) :
  let bs := bits_from_bytes data in
  let n := len bs in
  let ones := sum bs in
  let zeros := n - ones in
  let expected := (1 + IZR (2 * ones * zeros) / IZR n)%R in
  let variance :=
    (IZR (2 * ones * zeros * (2 * ones * zeros - n))
     / IZR (n ^ 2 * (n - 1)))%R in
  ones <> 0 -> zeros <> 0 ->
  exists (p z : R) (runs : Z),
    runs_test data = Ok (Fin p, runs, Fin expected, Fin z)
    /\ (0 < variance)%R
    /\ z = ((IZR runs - expected) / R_sqrt.sqrt variance)%R
    /\ p = erfc (Rabs z / R_sqrt.sqrt 2)
    /\ (0 <= p <= 1)%R.
Proof.
  intros bs n ones zeros expected variance H1 H0.
  destruct (runs_test_mixed_value data) as (Hv & H); [exact H1 | exact H0 |].
  eexists _, _, _. split; [exact H|]. split; [exact Hv|].
  split; [reflexivity|]. split; [reflexivity|].
  apply erfc_bounds. apply Rmult_le_pos; [apply Rabs_pos|].
  left. apply Rinv_0_lt_compat. apply sqrt_lt_R0. lra.
Qed.

End RunsMore.

(** ** More on the bit view and on the monobit test *)

Section BitsMore.

Context {libm : Libm}.
Import Py PyFacts.

Lemma bits_value_byte_bits (b : byte) :
  bits_value (byte_bits (int_of_byte b)) = int_of_byte b.
Proof. destruct b; reflexivity. Qed.

Lemma int_of_byte_inj (b1 b2 : byte) :
  int_of_byte b1 = int_of_byte b2 -> b1 = b2.
Proof.
  unfold int_of_byte. intros H. apply N2Z.inj in H.
  pose proof (Byte.of_to_N b1) as H1. rewrite H, Byte.of_to_N in H1.
  congruence.
Qed.

(** X7. The bit view loses nothing: two buffers with the same bit
    sequence are equal. *)
Theorem bits_from_bytes_injective (d1 d2 : bytes) :
  bits_from_bytes d1 = bits_from_bytes d2 -> d1 = d2.
Proof.
  revert d2. induction d1 as [|b1 d1 IH]; intros [|b2 d2] H.
  - reflexivity.
  - apply (f_equal (@length Z)) in H.
    rewrite !length_bits_from_bytes in H. simpl in H. lia.
  - apply (f_equal (@length Z)) in H.
    rewrite !length_bits_from_bytes in H. simpl in H. lia.
  - rewrite !bits_from_bytes_cons in H.
    apply app_inj_1 in H; [|now rewrite !length_byte_bits].
    destruct H as [Hb Hd]. f_equal; [|now apply IH].
    apply int_of_byte_inj.
    now rewrite <- (bits_value_byte_bits b1), Hb, bits_value_byte_bits.
Qed.

Lemma byte_bits_complement (b : byte) :
  byte_bits (int_of_byte (complement b))
  = map (fun x => 1 - x) (byte_bits (int_of_byte b)).
Proof. destruct b; reflexivity. Qed.

Lemma bits_from_bytes_complement (data : bytes) :
  bits_from_bytes (map complement data)
  = map (fun x => 1 - x) (bits_from_bytes data).
Proof.
  induction data as [|b data IH]; [reflexivity|].
  cbn [map]. rewrite !bits_from_bytes_cons, map_app, IH, byte_bits_complement.
  reflexivity.
Qed.

Lemma sum_map_flip (bs : list Z) :
  sum (map (fun x => 1 - x) bs) = len bs - sum bs.
Proof.
  induction bs as [|x bs IH]; [reflexivity|].
  cbn [map]. rewrite !sum_cons, len_cons, IH. lia.
Qed.

Lemma len_map_flip (bs : list Z) : len (map (fun x => 1 - x) bs) = len bs.
Proof. unfold len. now rewrite length_map. Qed.

Lemma flips_map_flip (prev : Z) (bs : list Z) :
  flips (1 - prev) (map (fun x => 1 - x) bs) = flips prev bs.
Proof.
  revert prev. induction bs as [|x bs IH]; intros prev; [reflexivity|].
  cbn [map flips]. rewrite IH. f_equal.
  destruct (Z.eqb_spec (1 - x) (1 - prev)), (Z.eqb_spec x prev); lia.
Qed.

Lemma runs_of_map_flip (bs : list Z) :
  runs_of (map (fun x => 1 - x) bs) = runs_of bs.
Proof.
  destruct bs as [|x bs]; [reflexivity|].
  cbn [map runs_of]. now rewrite flips_map_flip.
Qed.

(** X8. Flipping every bit of the buffer exchanges [ones] and [zeros] in
    the result of [monobit_test] and leaves [z] and the p-value as they
    are. *)
Theorem monobit_test_complement (data : bytes) :
  exists (p z : float) (ones zeros : Z),
    monobit_test data = Ok (p, z, ones, zeros)
    /\ monobit_test (map complement data) = Ok (p, z, zeros, ones).
Proof.
  destruct data as [|b data]; [exists (Fin 0), (Fin 0), 0, 0; auto|].
  assert (Hne : b :: data <> []) by discriminate.
  assert (Hne' : map complement (b :: data) <> []) by discriminate.
  pose proof (monobit_test_nonempty _ Hne) as H.
  pose proof (monobit_test_nonempty _ Hne') as H'.
  cbv zeta in H, H'.
  rewrite bits_from_bytes_complement, sum_map_flip, len_map_flip in H'.
  set (bs := bits_from_bytes (b :: data)) in *.
  set (n := len bs) in *. set (ones := sum bs) in *.
  replace (n - (n - ones)) with ones in H' by lia.
  replace (Z.abs (n - ones - ones)) with (Z.abs (ones - (n - ones))) in H' by lia.
  eexists _, _, _, _. split; [exact H | exact H'].
Qed.

(** X9. Flipping every bit of the buffer does not change the result of
    [runs_test]. *)
Theorem runs_test_complement (data : bytes) :
  runs_test (map complement data) = runs_test data.
Proof.
  destruct data as [|b data]; [reflexivity|].
  set (d := b :: data). assert (Hne : d <> []) by discriminate.
  pose proof (len_bits_nonempty d Hne) as Hn.
  pose proof (sum_map_flip (bits_from_bytes d)) as Hs.
  pose proof (len_map_flip (bits_from_bytes d)) as Hl.
  rewrite <- bits_from_bytes_complement in Hs, Hl.
  destruct (Z.eq_dec (sum (bits_from_bytes d)) 0) as [H1|H1];
    [|destruct (Z.eq_dec (len (bits_from_bytes d) - sum (bits_from_bytes d)) 0)
        as [H0|H0]].
  - unfold runs_test. rewrite !runs_test_bits_constant; auto; lia.
  - unfold runs_test. rewrite !runs_test_bits_constant; auto; lia.
  - destruct (runs_test_mixed_value d) as (_ & ->); [exact H1 | exact H0 |].
    destruct (runs_test_mixed_value (map complement d)) as (_ & ->);
      [lia | lia |].
    rewrite Hs, Hl. rewrite bits_from_bytes_complement, runs_of_map_flip.
    set (n := len (bits_from_bytes d)). set (o := sum (bits_from_bytes d)).
    replace (n - (n - o)) with o by lia.
    replace (2 * (n - o) * o) with (2 * o * (n - o)) by ring.
    reflexivity.
Qed.

(** X10. In the result of [monobit_test], [ones] and [zeros] are not
    negative and [z] is not negative; [z] is 0 exactly when there are as
    many ones as zeros. *)
Theorem monobit_test_bounds (data : bytes) :
  exists (p z : R) (ones zeros : Z),
    monobit_test data = Ok (Fin p, Fin z, ones, zeros)
    /\ 0 <= ones /\ 0 <= zeros
    /\ (0 <= z)%R
    /\ (z = 0%R <-> ones = zeros).
Proof.
  destruct data as [|b data].
  - exists 0%R, 0%R, 0, 0. split; [reflexivity|].
    repeat split; try lia; lra.
  - assert (Hne : b :: data <> []) by discriminate.
    pose proof (monobit_test_nonempty _ Hne) as H. cbv zeta in H.
    pose proof (len_bits_nonempty _ Hne) as Hn.
    pose proof (sum_bits_bounds _ (bits_from_bytes_01 (b :: data))) as Hs.
    set (bs := bits_from_bytes (b :: data)) in *.
    set (n := len bs) in *. set (ones := sum bs) in *.
    set (s := Z.abs (ones - (n - ones))) in *.
    assert (Hnr : (0 < IZR n)%R) by (apply IZR_lt; lia).
    assert (Hrn : (0 < R_sqrt.sqrt (IZR n))%R) by (apply sqrt_lt_R0; lra).
    assert (Hs0 : (0 <= IZR s)%R) by (apply IZR_le; unfold s; lia).
    eexists _, _, ones, (n - ones). split; [exact H|].
    split; [lia|]. split; [lia|]. split.
    + apply Rmult_le_pos; [exact Hs0 | left; now apply Rinv_0_lt_compat].
    + split.
      * intros Hz.
        assert (E : IZR s = 0%R).
        { apply Rmult_eq_reg_r with (/ R_sqrt.sqrt (IZR n))%R.
          - rewrite Rmult_0_l. exact Hz.
          - apply Rinv_neq_0_compat. lra. }
        apply eq_IZR in E. unfold s in E. lia.
      * intros E. replace s with 0 by (unfold s; lia).
        unfold Rdiv. now rewrite Rmult_0_l.
Qed.

End BitsMore.

(** ** More on the byte counts and on the chi-square test *)

Section ChiSquareMore.

Context {libm : Libm}.
Import Py PyFacts.

(** X11. The counting loop of [byte_chi_square] and of
    [shannon_entropy_per_byte] never indexes outside its table: it
    returns a table of 256 entries, entry [v] being the number of
    occurrences of the byte value [v], and the entries add up to the
    length of the buffer. *)
Theorem byte_counts_histogram (data : bytes) :
  exists counts : list Z,
    byte_counts data = Ok counts
    /\ length counts = 256%nat
    /\ (forall v : Z, 0 <= v < 256 ->
        getitem counts v = Ok (occ v (ints data)))
    /\ sum counts = len data.
Proof.
  destruct (byte_counts_Ok data) as (cs & Hf & Hl & Hs & _ & Hlk).
  exists cs. split; [exact Hf|]. split; [exact Hl|]. split; [|exact Hs].
  intros v Hv. rewrite <- (Z2Nat.id v) at 1 by lia.
  apply getitem_lookup. rewrite (Hlk (Z.to_nat v)) by lia.
  now rewrite Z2Nat.id by lia.
Qed.

Lemma chi_sum_expand (e : R) (cs : list Z) :
  e <> 0%R ->
  Rsum (map (chi_term e) cs)
  = (IZR (sumsq cs) / e - 2 * IZR (sum cs) + INR (length cs) * e)%R.
Proof.
  intros He. induction cs as [|c cs IH].
  - simpl. change (sumsq []) with 0. rewrite sum_nil. unfold Rdiv.
    rewrite !Rmult_0_l, Rmult_0_r. lra.
  - cbn [map Rsum fold_right]. fold (Rsum (map (chi_term e) cs)).
    rewrite IH, sumsq_cons, sum_cons, !plus_IZR, mult_IZR.
    cbn [length]. rewrite S_INR. unfold chi_term. field. exact He.
Qed.

Lemma chi_sum_closed (cs : list Z) (n : Z) :
  0 < n -> length cs = 256%nat -> sum cs = n ->
  Rsum (map (chi_term (IZR n / 256)) cs)
  = (256 * IZR (sumsq cs) / IZR n - IZR n)%R.
Proof.
  intros Hn Hl Hs.
  assert (Hnr : (0 < IZR n)%R) by (apply IZR_lt; lia).
  rewrite chi_sum_expand, Hl, Hs.
  - replace (INR 256) with 256%R by (rewrite INR_IZR_INZ; reflexivity).
    revert Hnr. generalize (IZR (sumsq cs)) (IZR n). clear. intros S x Hx.
    field. lra.
  - revert Hnr. generalize (IZR n). clear. intros x Hx.
    apply Rgt_not_eq. apply Rdiv_lt_0_compat; lra.
Qed.

Lemma len_pos (data : bytes) : data <> [] -> 0 < len data.
Proof.
  destruct data as [|b data]; [congruence|]. intros _.
  rewrite len_cons. pose proof (len_nonneg data). lia.
Qed.

(** The chi-square statistic in closed form. *)
Lemma chi_statistic_closed (data : bytes) :
  data <> [] ->
  chi_statistic data
  = (256 * IZR (sumsq (tally data)) / IZR (len data) - IZR (len data))%R.
Proof.
  intros Hne. destruct (tally_facts data) as (Hl & Hs & _).
  exact (chi_sum_closed (tally data) (len data) (len_pos data Hne) Hl Hs).
Qed.

Lemma chi_closed_zero_iff (cs : list Z) (n : Z) :
  0 < n -> length cs = 256%nat -> sum cs = n ->
  (256 * IZR (sumsq cs) / IZR n - IZR n)%R = 0%R
  <-> exists k : Z, cs = replicate 256 k.
Proof.
  intros Hn Hl Hs.
  assert (Hnr : (0 < IZR n)%R) by (apply IZR_lt; lia).
  pose proof (dispersion_zero_iff cs) as Hd.
  rewrite Hl in Hd. unfold dispersion, len in Hd. rewrite Hl, Hs in Hd.
  change (Z.of_nat 256) with 256 in Hd. rewrite <- Hd.
  assert (E : (256 * IZR (sumsq cs) / IZR n - IZR n
               = IZR (256 * sumsq cs - n * n) * / IZR n)%R).
  { rewrite minus_IZR, !mult_IZR.
    revert Hnr. generalize (IZR (sumsq cs)) (IZR n). clear. intros S x Hx.
    field. lra. }
  rewrite E. split.
  - intros H. apply Rmult_integral in H. destruct H as [H|H].
    + now apply eq_IZR in H.
    + exfalso. apply (Rinv_neq_0_compat (IZR n)); [|exact H].
      revert Hnr. generalize (IZR n). clear. intros x Hx. lra.
  - intros ->. now rewrite Rmult_0_l.
Qed.

(** X12. The chi-square value that [byte_chi_square] returns is never
    negative, and is 0 on the empty buffer. *)
Theorem byte_chi_square_nonneg (data : bytes) :
  exists chi p : R,
    byte_chi_square data = Ok (Fin chi, Fin p)
    /\ (0 <= chi)%R
    /\ (data = [] -> chi = 0%R).
Proof.
  destruct data as [|b data].
  - exists 0%R, 0%R. split; [reflexivity|]. split; [lra | reflexivity].
  - assert (Hne : b :: data <> []) by discriminate.
    eexists _, _. split; [apply (byte_chi_square_nonempty _ Hne)|].
    split; [|congruence].
    unfold chi_statistic. apply chi_sum_nonneg.
    pose proof (len_pos _ Hne) as Hn.
    apply Rdiv_lt_0_compat; [apply IZR_lt; exact Hn | lra].
Qed.

Lemma occ_replicate (v a : Z) (k : nat) :
  occ v (replicate k a) = if a =? v then Z.of_nat k else 0.
Proof.
  induction k as [|k IH]; [simpl; now destruct (a =? v)|].
  cbn [replicate occ]. rewrite IH. destruct (a =? v); lia.
Qed.

Lemma ints_replicate (k : nat) (b : byte) :
  ints (replicate k b) = replicate k (int_of_byte b).
Proof. induction k as [|k IH]; [reflexivity | simpl; now rewrite IH]. Qed.

(** The counts of a constant buffer: its length at the value of the
    byte, 0 elsewhere. *)
Lemma tally_constant (k : nat) (b : byte) :
  tally (replicate k b)
  = map (fun v => if int_of_byte b =? v then Z.of_nat k else 0) (range 256).
Proof.
  unfold tally. apply map_ext. intros v.
  now rewrite ints_replicate, occ_replicate.
Qed.

(** X14. On a buffer that is not empty, the chi-square value is 0 exactly
    when all the 256 byte values occur the same number of times. *)
Theorem byte_chi_square_zero_iff_uniform (data : bytes) :
  data <> [] ->
  exists chi p : R,
    byte_chi_square data = Ok (Fin chi, Fin p)
    /\ (chi = 0%R <-> exists k : Z, tally data = replicate 256 k).
Proof.
  intros Hne. eexists _, _. split; [apply (byte_chi_square_nonempty _ Hne)|].
  rewrite chi_statistic_closed by exact Hne.
  destruct (tally_facts data) as (Hl & Hs & _).
  exact (chi_closed_zero_iff (tally data) (len data) (len_pos data Hne) Hl Hs).
Qed.

End ChiSquareMore.

(** ** The tests on the bytes and the order of the bytes *)

Section Histogram.

Context {libm : Libm}.
Import Py PyFacts.

Lemma occ_Permutation (v : Z) (xs ys : list Z) :
  Permutation xs ys -> occ v xs = occ v ys.
Proof.
  induction 1 as [|x xs ys _ IH|x y xs|xs ys zs _ IH1 _ IH2]; simpl; lia.
Qed.

Lemma tally_Permutation (d1 d2 : bytes) :
  Permutation d1 d2 -> tally d1 = tally d2.
Proof.
  intros H. unfold tally. apply map_ext. intros v.
  apply occ_Permutation. unfold ints. now apply Permutation_map.
Qed.

(** X15. [byte_chi_square] and [shannon_entropy_per_byte] depend on the
    byte counts only: they return the same result on two buffers that
    hold the same bytes in a different order. *)
Theorem histogram_tests_order_insensitive (d1 d2 : bytes) :
  Permutation d1 d2 ->
  byte_chi_square d1 = byte_chi_square d2
  /\ shannon_entropy_per_byte d1 = shannon_entropy_per_byte d2.
Proof.
  intros H.
  destruct d1 as [|b1 d1].
  - apply Permutation_nil in H. subst d2. auto.
  - assert (Hne1 : b1 :: d1 <> []) by discriminate.
    assert (Hne2 : d2 <> [])
      by (intros ->; apply Permutation_sym, Permutation_nil in H; discriminate).
    assert (Hlen : len (b1 :: d1) = len d2)
      by (unfold len; now rewrite (Permutation_length H)).
    pose proof (tally_Permutation _ _ H) as Ht.
    rewrite (byte_chi_square_nonempty _ Hne1), (byte_chi_square_nonempty _ Hne2).
    rewrite (shannon_entropy_nonempty _ Hne1), (shannon_entropy_nonempty _ Hne2).
    unfold chi_statistic. rewrite Ht, Hlen. auto.
Qed.

End Histogram.

(** ** More on the serial correlation *)

Section SerialMore.

Import Py PyFacts.

Lemma lag1_sum_snoc (y : Z) (l : list Z) :
  lag1_sum (l ++ [y]) = lag1_sum (y :: l).
Proof.
  destruct l as [|x l]; [reflexivity|].
  change ((x :: l) ++ [y]) with (x :: (l ++ [y])).
  rewrite !lag1_sum_rotation.
  change (x :: l ++ [y]) with ((x :: l) ++ [y]).
  rewrite zip_with_app by (rewrite length_app; simpl; lia).
  cbn [zip_with]. rewrite sum_app, !sum_cons, sum_nil.
  change ((x :: l) ++ [y]) with (x :: (l ++ [y])).
  cbn [zip_with]. rewrite sum_cons. lia.
Qed.

Lemma serial_correlation_snoc (y : byte) (l : bytes) :
  serial_correlation (l ++ [y]) = serial_correlation (y :: l).
Proof.
  rewrite !serial_correlation_value. cbv zeta.
  unfold ints. rewrite map_app. cbn [map].
  fold (ints l). set (xs := ints l). set (v := int_of_byte y).
  rewrite lag1_sum_snoc, sum_app, sumsq_app, len_app, !len_cons, !sum_cons,
    !sumsq_cons, sum_nil.
  change (len []) with 0. change (sumsq []) with 0.
  replace (len xs + (0 + 1)) with (len xs + 1) by lia.
  replace (sum xs + (v + 0)) with (v + sum xs) by lia.
  replace (sumsq xs + (v * v + 0)) with (v * v + sumsq xs) by lia.
  reflexivity.
Qed.

(** X16. [serial_correlation] treats the buffer as a circle: cutting the
    buffer in two and exchanging the parts does not change the result. *)
Theorem serial_correlation_circular (a b : bytes) :
  serial_correlation (b ++ a) = serial_correlation (a ++ b).
Proof.
  revert b. induction a as [|y a IH]; intros b.
  - now rewrite app_nil_r.
  - change ((y :: a) ++ b) with (y :: (a ++ b)).
    rewrite <- serial_correlation_snoc, <- app_assoc, <- IH, <- app_assoc.
    reflexivity.
Qed.

Lemma sum_zip_sqdiff (a b : list Z) :
  length a = length b ->
  sum (zip_with (fun x y => (x - y) * (x - y)) a b)
  = sumsq a - 2 * sum (zip_with Z.mul a b) + sumsq b.
Proof.
  revert b. induction a as [|x a IH]; intros [|y b] H; try discriminate.
  - reflexivity.
  - cbn [zip_with]. rewrite !sum_cons, !sumsq_cons, IH by (simpl in H; lia).
    ring.
Qed.

Lemma zip_sqdiff_zero (a b : list Z) :
  length a = length b ->
  sum (zip_with (fun x y => (x - y) * (x - y)) a b) = 0 -> a = b.
Proof.
  revert b. induction a as [|x a IH]; intros [|y b] H Hs; try discriminate.
  - reflexivity.
  - cbn [zip_with] in Hs. rewrite sum_cons in Hs.
    assert (Hnn : 0 <= sum (zip_with (fun x y => (x - y) * (x - y)) a b)).
    { rewrite sum_zip_sqdiff by (simpl in H; lia).
      pose proof (sum_products_le a b). lia. }
    pose proof (Z.square_nonneg (x - y)) as Hsq.
    assert (E : (x - y) * (x - y) = 0) by lia.
    apply Z.mul_eq_0 in E. f_equal; [lia|].
    apply IH; [simpl in H; lia | lia].
Qed.

Lemma rotation_fixed (y : Z) (l : list Z) :
  y :: l = l ++ [y] -> l = replicate (length l) y.
Proof.
  revert y. induction l as [|x l IH]; intros y H; [reflexivity|].
  cbn [app] in H. injection H as -> H.
  simpl. f_equal. now apply IH.
Qed.

(** When the circular lag-1 sum reaches the sum of the squares, the list
    is constant. *)
Lemma lag_equal_constant (y : Z) (l : list Z) :
  sum (zip_with Z.mul (y :: l) (l ++ [y])) = sumsq (y :: l) ->
  dispersion (y :: l) = 0.
Proof.
  intros H. apply dispersion_zero_iff. exists y.
  simpl. f_equal. apply rotation_fixed.
  assert (Hlen : length (y :: l) = length (l ++ [y]))
    by (rewrite length_app; simpl; lia).
  apply zip_sqdiff_zero; [exact Hlen|].
  rewrite sum_zip_sqdiff by exact Hlen.
  rewrite H, sumsq_app, !sumsq_cons. change (sumsq []) with 0. lia.
Qed.

(** X17. The value of [serial_correlation] is always less than 1: the
    upper end of its range is never reached. *)
Theorem serial_correlation_below_one (data : bytes) :
  exists rho : R,
    serial_correlation data = Ok (Fin rho) /\ (rho < 1)%R.
Proof.
  eexists. split; [apply serial_correlation_value|]. cbv zeta.
  set (xs := ints data).
  destruct (Z.ltb_spec (len xs) 2) as [Hn|Hn]; [lra|].
  destruct (Z.eqb_spec (len xs * sumsq xs - sum xs * sum xs) 0) as [Hd|Hd];
    [lra|].
  destruct xs as [|y l]; [change (len []) with 0 in Hn; lia|].
  pose proof (lag_bounds y l) as Hb. cbv zeta in Hb.
  rewrite <- lag1_sum_rotation in Hb.
  unfold dispersion in Hb.
  assert (Hlt : len (y :: l) * lag1_sum (y :: l) - sum (y :: l) * sum (y :: l)
                < len (y :: l) * sumsq (y :: l) - sum (y :: l) * sum (y :: l)).
  { assert (Hne : lag1_sum (y :: l) <> sumsq (y :: l)).
    { intros E. rewrite lag1_sum_rotation in E.
      apply lag_equal_constant in E. unfold dispersion in E. contradiction. }
    pose proof (sum_products_le (y :: l) (l ++ [y])) as Hle.
    rewrite <- lag1_sum_rotation, sumsq_app, !sumsq_cons in Hle.
    change (sumsq []) with 0 in Hle. rewrite sumsq_cons in Hne.
    assert (Hs : lag1_sum (y :: l) < sumsq (y :: l))
      by (rewrite sumsq_cons; lia).
    apply Z.sub_lt_mono_r, Z.mul_lt_mono_pos_l; [lia | exact Hs]. }
  revert Hd Hb Hlt.
  generalize (len (y :: l) * lag1_sum (y :: l) - sum (y :: l) * sum (y :: l)).
  generalize (len (y :: l) * sumsq (y :: l) - sum (y :: l) * sum (y :: l)).
  clear. intros d a Hd Hb Hlt.
  assert (Hpos : (0 < IZR d)%R) by (apply IZR_lt; lia).
  apply IZR_lt in Hlt. revert Hpos Hlt. generalize (IZR a) (IZR d). clear.
  intros a d Hpos Hlt.
  apply Rmult_lt_reg_r with d; [exact Hpos|].
  unfold Rdiv. rewrite Rmult_assoc, Rinv_l by lra. lra.
Qed.

(** X18. On two bytes that differ, [serial_correlation] returns -1; the
    lower end of its range is reached. *)
Theorem serial_correlation_two_bytes (a b : byte) :
  a <> b -> serial_correlation [a; b] = Ok (Fin (-1)).
Proof.
  intros Hab. rewrite serial_correlation_value. cbv zeta.
  assert (Hv : int_of_byte a <> int_of_byte b)
    by (intros E; apply Hab; now apply int_of_byte_inj).
  change (ints [a; b]) with [int_of_byte a; int_of_byte b].
  revert Hv. generalize (int_of_byte a) (int_of_byte b). clear.
  intros x y Hxy.
  change (len [x; y]) with 2. cbn [Z.ltb Z.compare Pos.compare Pos.compare_cont].
  replace (lag1_sum [x; y]) with (x * y + y * x)
    by (unfold lag1_sum; simpl; rewrite !sum_cons, sum_nil; lia).
  rewrite !sum_cons, !sumsq_cons, sum_nil. change (sumsq []) with 0.
  assert (Hsq : 0 < (x - y) * (x - y))
    by (pose proof (Z.square_nonneg (x - y)); nia).
  replace (2 * (x * y + y * x) - (x + (y + 0)) * (x + (y + 0)))
    with (- ((x - y) * (x - y))) by ring.
  replace (2 * (x * x + (y * y + 0)) - (x + (y + 0)) * (x + (y + 0)))
    with ((x - y) * (x - y)) by ring.
  revert Hsq. generalize ((x - y) * (x - y)). clear. intros d Hd.
  destruct (Z.eqb_spec d 0) as [E|_]; [lia|].
  rewrite opp_IZR. assert (Hpos : (0 < IZR d)%R) by (apply IZR_lt; lia).
  do 2 f_equal. revert Hpos. generalize (IZR d). clear. intros r Hr.
  field. lra.
Qed.

End SerialMore.

(** ** More on the Shannon entropy *)

Section EntropyMore.

Import Py PyFacts.

Lemma entropy_term_pos (n c : Z) :
  0 < c < n -> (0 < entropy_term n c)%R.
Proof.
  intros Hc. unfold entropy_term.
  destruct (Z.eqb_spec c 0) as [E|_]; [lia|].
  assert (Hcr : (0 < IZR c)%R) by (apply IZR_lt; lia).
  assert (Hcn : (IZR c < IZR n)%R) by (apply IZR_lt; lia).
  revert Hcr Hcn. generalize (IZR c) (IZR n). clear. intros c n Hc Hcn.
  set (p := (c / n)%R).
  assert (Hp : (0 < p < 1)%R).
  { unfold p. split; [apply Rdiv_lt_0_compat; lra|].
    apply Rmult_lt_reg_r with n; [lra|].
    unfold Rdiv. rewrite Rmult_assoc, Rinv_l by lra. lra. }
  pose proof (ln_le_pred p (proj1 Hp)) as Hl. pose proof ln2_pos as H2.
  assert (Hq : (ln p / ln 2 < 0)%R).
  { apply Rmult_lt_reg_r with (ln 2); [exact H2|].
    unfold Rdiv. rewrite Rmult_assoc, Rinv_l by lra. lra. }
  revert Hp Hq. generalize (ln p / ln 2)%R p. clear. intros q p Hp Hq. nra.
Qed.

Lemma entropy_term_full (n : Z) : 0 < n -> entropy_term n n = 0%R.
Proof.
  intros Hn. unfold entropy_term.
  destruct (Z.eqb_spec n 0) as [E|_]; [lia|].
  assert (Hnr : (IZR n <> 0)%R) by (apply not_0_IZR; lia).
  replace (IZR n / IZR n)%R with 1%R by (field; exact Hnr).
  rewrite ln_1. unfold Rdiv. rewrite Rmult_0_l. apply Rmult_0_r.
Qed.

Lemma entropy_term_zero (n c : Z) :
  0 <= c <= n -> entropy_term n c = 0%R -> c = 0 \/ c = n.
Proof.
  intros Hc H.
  destruct (Z.eq_dec c 0) as [E|E]; [now left|].
  destruct (Z.eq_dec c n) as [E'|E']; [now right|].
  assert (Hpos : (0 < entropy_term n c)%R) by (apply entropy_term_pos; lia).
  rewrite H in Hpos. exfalso. exact (Rlt_irrefl 0 Hpos).
Qed.

Lemma Rsum_zero_terms {A : Type} (f : A -> R) (l : list A) :
  Forall (fun x => 0 <= f x)%R l -> Rsum (map f l) = 0%R ->
  Forall (fun x => f x = 0%R) l.
Proof.
  induction 1 as [|x l Hx Hl IH]; intros Hs; [constructor|].
  cbn [map Rsum fold_right] in Hs. fold (Rsum (map f l)) in Hs.
  assert (Hnn : (0 <= Rsum (map f l))%R).
  { clear - Hl. induction Hl as [|y l Hy _ IH]; [simpl; lra|].
    cbn [map Rsum fold_right]. fold (Rsum (map f l)). lra. }
  constructor; [lra | apply IH; lra].
Qed.

Lemma Rsum_all_zero {A : Type} (f : A -> R) (l : list A) :
  Forall (fun x => f x = 0%R) l -> Rsum (map f l) = 0%R.
Proof.
  induction 1 as [|x l Hx _ IH]; [reflexivity|].
  cbn [map Rsum fold_right]. fold (Rsum (map f l)). lra.
Qed.

Lemma counts_le_sum (cs : list Z) :
  Forall (Z.le 0) cs -> Forall (fun c => 0 <= c <= sum cs) cs.
Proof.
  induction 1 as [|c cs Hc Hcs IH]; [constructor|].
  pose proof (sum_nonneg cs Hcs). rewrite sum_cons. constructor; [lia|].
  eapply Forall_impl; [exact IH|]. simpl. intros x Hx. lia.
Qed.

Lemma full_count_exists (n : Z) (cs : list Z) :
  0 < n -> Forall (fun c => c = 0 \/ c = n) cs -> sum cs = n -> In n cs.
Proof.
  intros Hn. induction 1 as [|c cs Hc _ IH]; intros Hs.
  - rewrite sum_nil in Hs. lia.
  - destruct Hc as [-> | ->]; [|now left].
    right. apply IH. rewrite sum_cons in Hs. lia.
Qed.

Lemma occ_le_len (v : Z) (xs : list Z) : 0 <= occ v xs <= len xs.
Proof.
  induction xs as [|x xs IH]; [simpl; change (len []) with 0; lia|].
  cbn [occ]. rewrite len_cons. destruct (x =? v); lia.
Qed.

Lemma occ_full (v : Z) (xs : list Z) :
  occ v xs = len xs -> Forall (eq v) xs.
Proof.
  induction xs as [|x xs IH]; intros H; [constructor|].
  cbn [occ] in H. rewrite len_cons in H. pose proof (occ_le_len v xs).
  destruct (Z.eqb_spec x v) as [E|E]; [|lia].
  constructor; [congruence | apply IH; lia].
Qed.

Lemma constant_bytes (v : Z) (data : bytes) :
  Forall (eq v) (ints data) ->
  exists b : byte, data = replicate (length data) b.
Proof.
  destruct data as [|b data]; [exists x00; reflexivity|].
  intros H. exists b. inversion H as [|? ? Hb Hrest]; subst.
  simpl. f_equal. clear H. induction data as [|c data IH]; [reflexivity|].
  inversion Hrest as [|? ? Hc Hrest']; subst.
  simpl. f_equal; [symmetry; now apply int_of_byte_inj | now apply IH].
Qed.

(** X19. On a buffer that is not empty, [shannon_entropy_per_byte]
    returns 0 exactly when all the bytes of the buffer are equal. *)
Theorem shannon_entropy_zero_iff_constant (data : bytes) :
  data <> [] ->
  exists h : R,
    shannon_entropy_per_byte data = Ok (Fin h)
    /\ (h = 0%R <-> exists b : byte, data = replicate (length data) b).
Proof.
  intros Hne. eexists. split; [apply (shannon_entropy_nonempty _ Hne)|].
  pose proof (len_pos data Hne) as Hn.
  destruct (tally_facts data) as (_ & Hs & Hnn).
  split.
  - intros H.
    pose proof (counts_le_sum _ Hnn) as Hle. rewrite Hs in Hle.
    assert (Hterms : Forall (fun c => c = 0 \/ c = len data) (tally data)).
    { apply Rsum_zero_terms in H.
      - rewrite Forall_forall in H, Hle. apply Forall_forall. intros c Hc.
        apply entropy_term_zero; [apply Hle | apply H]; exact Hc.
      - eapply Forall_impl; [exact Hle|]. simpl. intros c Hc.
        apply entropy_term_nonneg; [exact Hn | exact Hc]. }
    pose proof (full_count_exists _ _ Hn Hterms Hs) as Hin.
    unfold tally in Hin. apply in_map_iff in Hin.
    destruct Hin as (v & Hv & _). rewrite <- len_ints in Hv.
    apply occ_full in Hv. now apply (constant_bytes v).
  - intros (b & Hb). rewrite Hb.
    assert (Hk : (0 < length data)%nat) by (unfold len in Hn; lia).
    revert Hk. generalize (length data). clear. intros k Hk.
    apply Rsum_all_zero. rewrite tally_constant. apply Forall_forall.
    intros c Hc. apply list_elem_of_In, in_map_iff in Hc.
    destruct Hc as (v & <- & _). unfold len. rewrite length_replicate.
    destruct (int_of_byte b =? v).
    + apply entropy_term_full. lia.
    + reflexivity.
Qed.

End EntropyMore.

(** ** The further properties with a premise, on concrete inputs *)

Lemma run_bb_exact_length_witness :
  BB.run_bb_and_read_hex dead_device 24 [] 5%R
  = BB.Return [x00; "222"%byte; "173"%byte]
  /\ 0 < 24
  /\ Py.len [x00; "222"%byte; "173"%byte] = (24 + 7) / 8.
Proof.
  split; [reflexivity|].
  apply (run_bb_exact_length dead_device 24 [] 5%R). reflexivity.
Defined.



Lemma runs_test_counts_maximal_runs_witness :
  exists (p expected z : float),
    @runs_test sigmoid_libm alternating4
    = Ok (p, runs_of (bits_from_bytes alternating4), expected, z).
Proof.
  apply (@runs_test_counts_maximal_runs sigmoid_libm alternating4).
  discriminate.
Defined.

Lemma runs_test_mixed_statistic_witness :
  exists (p z : R) (runs : Z) (expected : R),
    @runs_test sigmoid_libm alternating4
    = Ok (Fin p, runs, Fin expected, Fin z)
    /\ (0 <= p <= 1)%R.
Proof.
  destruct (@runs_test_mixed_statistic sigmoid_libm alternating4)
    as (p & z & runs & H & _ & _ & _ & Hp).
  - vm_compute. discriminate.
  - vm_compute. discriminate.
  - exists p, z, runs. eexists. split; [exact H | exact Hp].
Defined.

Lemma bits_from_bytes_injective_witness :
  bits_from_bytes alternating4 = bits_from_bytes [xff; x00; xff; x00]
  /\ alternating4 = [xff; x00; xff; x00].
Proof.
  split; [reflexivity|].
  apply (bits_from_bytes_injective alternating4 [xff; x00; xff; x00]).
  reflexivity.
Defined.

Lemma byte_chi_square_zero_iff_uniform_witness :
  exists chi p : R,
    @byte_chi_square sigmoid_libm all_bytes = Ok (Fin chi, Fin p)
    /\ chi = 0%R.
Proof.
  destruct (@byte_chi_square_zero_iff_uniform sigmoid_libm all_bytes)
    as (chi & p & H & Hz).
  - vm_compute. discriminate.
  - exists chi, p. split; [exact H|]. apply Hz. exists 1.
    apply tally_each_byte_once. vm_compute. reflexivity.
Defined.

Lemma histogram_tests_order_insensitive_witness :
  @byte_chi_square sigmoid_libm [x00; xff]
  = @byte_chi_square sigmoid_libm [xff; x00]
  /\ shannon_entropy_per_byte [x00; xff] = shannon_entropy_per_byte [xff; x00].
Proof.
  apply (@histogram_tests_order_insensitive sigmoid_libm [x00; xff] [xff; x00]).
  apply perm_swap.
Defined.

Lemma serial_correlation_two_bytes_witness :
  serial_correlation [x00; xff] = Ok (Fin (-1)).
Proof.
  apply (serial_correlation_two_bytes x00 xff). discriminate.
Defined.

Lemma shannon_entropy_zero_iff_constant_witness :
  exists h : R,
    shannon_entropy_per_byte [xff; xff] = Ok (Fin h) /\ h = 0%R.
Proof.
  destruct (shannon_entropy_zero_iff_constant [xff; xff]) as (h & H & Hz);
    [discriminate|].
  exists h. split; [exact H|]. apply Hz. exists xff. reflexivity.
Defined.


(** ** The entropy of a nearly uniform buffer, in binary64 *)

Section EntropyB64Facts.

Import Py PyFacts.






End EntropyB64Facts.

